(** * Agentic chat and document ingestion: retrieval, storage and client models

    A shallow embedding of the parts of the repository that carry
    behaviour worth stating precisely:

    - the SQL retrieval functions [match_chunks] and
      [keyword_search_chunks] (Supabase migrations),
    - the [documents]/[chunks] schema with its foreign keys,
    - the upload component ([validateFile], [handleUpload]) and the
      [uploadDocument] client call,
    - the settings update path,
    - the server-sent-event reader inside [sendMessage].

    SQL values are modelled with their NULLs ([option]), SQL predicates with
    three-valued logic, [float] columns with exact rationals, JavaScript
    strings with [string] (code units below 256), network reads with byte
    lists.  PostgreSQL, pgvector and browser built-ins are interfaces
    ([PgOps], [Platform]); the backend handlers, which the repository
    snapshot does not contain, are modelled from the specification and
    marked as such. *)

From Stdlib Require Import List String Ascii Strings.Byte Bool ZArith QArith Qabs Lia.
From Stdlib Require Import Sorting.Sorted Sorting.Permutation Lqa.
Import ListNotations.

Close Scope Q_scope.
Local Open Scope string_scope.
Local Open Scope list_scope.
Local Open Scope Z_scope.

(* ================================================================== *)
(** * Results of fallible operations *)
(* ================================================================== *)

(** A statement or call either produces a value or raises with a message. *)
Inductive Result (A : Type) : Type :=
| Ok (a : A)
| Err (msg : string).

Arguments Ok {A} a.
Arguments Err {A} msg.

(* ================================================================== *)
(** * SQL three-valued logic *)
(* ================================================================== *)

Module Sql.

(** A nullable boolean: [None] is SQL NULL (unknown). *)
Definition sqlbool := option bool.

Definition sql_and (a b : sqlbool) : sqlbool :=
  match a, b with
  | Some false, _ | _, Some false => Some false
  | Some true, Some true => Some true
  | _, _ => None
  end.

Definition sql_or (a b : sqlbool) : sqlbool :=
  match a, b with
  | Some true, _ | _, Some true => Some true
  | Some false, Some false => Some false
  | _, _ => None
  end.

(** [x IS NULL] is never unknown. *)
Definition sql_is_null {A} (x : option A) : sqlbool :=
  Some (match x with None => true | Some _ => false end).

(** A strict binary operator: NULL as soon as one operand is NULL. *)
Definition strict2 {A B C} (f : A -> B -> C) (x : option A) (y : option B)
  : option C :=
  match x, y with
  | Some a, Some b => Some (f a b)
  | _, _ => None
  end.

(** A WHERE clause keeps a row only when its condition is TRUE. *)
Definition where_keeps (b : sqlbool) : bool :=
  match b with Some true => true | _ => false end.

(** [LIMIT n]: NULL means no limit, a negative count is an error. *)
Definition limit {A} (n : option Z) (rows : list A) : Result (list A) :=
  match n with
  | None => Ok rows
  | Some k =>
      if k <? 0 then Err "LIMIT must not be negative"
      else Ok (firstn (Z.to_nat k) rows)
  end.

(** Strict comparison of [float] values, modelled on rationals. *)
Definition Qlt_bool (a b : Q) : bool := negb (Qle_bool b a).

(** Sort keys: ascending order puts NULLs last, descending puts them
    first (the PostgreSQL defaults). *)
Definition asc_nulls_last (a b : option Q) : bool :=
  match a, b with
  | Some x, Some y => Qle_bool x y
  | Some _, None => true
  | None, Some _ => false
  | None, None => true
  end.

Definition desc_nulls_first (a b : option Q) : bool := asc_nulls_last b a.

(** [ORDER BY]: a stable insertion sort for a boolean "comes no later
    than" test; rows with equal keys keep their table order. *)
Fixpoint insert_row {A} (le : A -> A -> bool) (x : A) (l : list A) : list A :=
  match l with
  | [] => [x]
  | y :: l' => if le x y then x :: l else y :: insert_row le x l'
  end.

Fixpoint order_by {A} (le : A -> A -> bool) (l : list A) : list A :=
  match l with
  | [] => []
  | x :: l' => insert_row le x (order_by le l')
  end.

End Sql.
Import Sql.

(* ================================================================== *)
(** * JSON values *)
(* ================================================================== *)

Module Json.

(** The values [JSON.parse] produces and [jsonb] columns hold.  Object
    members are kept in source order. *)
#[local] Unset Elimination Schemes.
Inductive json : Type :=
| JNull
| JBool (b : bool)
| JNum (q : Q)
| JStr (s : string)
| JArr (items : list json)
| JObj (members : list (string * json)).
#[local] Set Elimination Schemes.

(** JavaScript truthiness of a parsed value ([undefined] is [None]). *)
Definition truthy (v : option json) : bool :=
  match v with
  | None | Some JNull => false
  | Some (JBool b) => b
  | Some (JNum q) => negb (Qeq_bool q (0 # 1))
  | Some (JStr s) => negb (s =? "")%string
  | Some (JArr _) | Some (JObj _) => true
  end.

(** Own-property lookup in a member list: a later duplicate key wins. *)
Fixpoint lookup_member (k : string) (ms : list (string * json)) : option json :=
  match ms with
  | [] => None
  | (k', v) :: rest =>
      match lookup_member k rest with
      | Some w => Some w
      | None => if (k =? k')%string then Some v else None
      end
  end.

(** What [parsed.k] evaluates to for [k] in [content], [error]:
    reading a property of [null] throws (a [TypeError]); primitives and
    arrays have no such property. *)
Definition get_prop (parsed : json) (k : string) : Result (option json) :=
  match parsed with
  | JNull => Err "TypeError"
  | JObj ms => Ok (lookup_member k ms)
  | _ => Ok None
  end.

End Json.
Import Json.

(* ================================================================== *)
(** * JavaScript string operations *)
(* ================================================================== *)

Module Js.

(** [s.split(c)] for a one-character separator: never empty. *)
Fixpoint split (sep : ascii) (s : string) : list string :=
  match s with
  | EmptyString => [EmptyString]
  | String c rest =>
      if Ascii.eqb c sep then EmptyString :: split sep rest
      else match split sep rest with
           | [] => [String c EmptyString]
           | p :: ps => String c p :: ps
           end
  end.

(** [a.pop()] returns the last element; [a] keeps the others. *)
Definition pop {A} (l : list A) : option A * list A :=
  match rev l with
  | [] => (None, [])
  | x :: r => (Some x, rev r)
  end.

(** [x || ''] on a possibly undefined string. *)
Definition or_empty (x : option string) : string :=
  match x with Some s => s | None => "" end.

Definition lower_char (c : ascii) : ascii :=
  let n := nat_of_ascii c in
  if ((65 <=? n) && (n <=? 90))%nat then ascii_of_nat (n + 32)
  else if ((192 <=? n) && (n <=? 222) && negb (n =? 215))%nat
       then ascii_of_nat (n + 32)
  else c.

(** [s.toLowerCase()] on code units below 256. *)
Fixpoint toLowerCase (s : string) : string :=
  match s with
  | EmptyString => EmptyString
  | String c rest => String (lower_char c) (toLowerCase rest)
  end.

(** [s.startsWith(p)]. *)
Definition startsWith (p s : string) : bool := String.prefix p s.

(** [s.slice(n)] for [0 <= n]. *)
Fixpoint slice (n : nat) (s : string) : string :=
  match n, s with
  | O, _ => s
  | S _, EmptyString => EmptyString
  | S k, String _ rest => slice k rest
  end.

(** White space and line terminators below 256. *)
Definition is_space (c : ascii) : bool :=
  let n := nat_of_ascii c in
  (((9 <=? n) && (n <=? 13)) || (n =? 32) || (n =? 160))%nat.

Fixpoint trimStart (s : string) : string :=
  match s with
  | EmptyString => EmptyString
  | String c rest => if is_space c then trimStart rest else s
  end.

Fixpoint trimEnd (s : string) : string :=
  match s with
  | EmptyString => EmptyString
  | String c rest =>
      match trimEnd rest with
      | EmptyString => if is_space c then EmptyString else String c EmptyString
      | r => String c r
      end
  end.

(** [s.trim()]. *)
Definition trim (s : string) : string := trimEnd (trimStart s).

(** Whether a character occurs in a string. *)
Fixpoint contains_char (c : ascii) (s : string) : bool :=
  match s with
  | EmptyString => false
  | String x rest => Ascii.eqb x c || contains_char c rest
  end.

(** [a.join(sep)]. *)
Definition join (sep : string) (l : list string) : string := String.concat sep l.

(** [a.includes(x)] on an array of strings. *)
Definition includes (a : list string) (x : string) : bool :=
  existsb (fun y => (y =? x)%string) a.

(** The double-quote character. *)
Definition dquote : ascii := Eval cbv in ascii_of_nat 34.

(** Writes a text with single quotes standing for double quotes. *)
Fixpoint dq (s : string) : string :=
  match s with
  | EmptyString => EmptyString
  | String c rest =>
      String (if Ascii.eqb c "'"%char then dquote else c) (dq rest)
  end.

(** The line feed character. *)
Definition LF : ascii := Eval cbv in ascii_of_nat 10.

End Js.
Import Js.

(* ================================================================== *)
(** * The persisted schema *)
(* ================================================================== *)

(** [UUID] keys, as opaque numbers. *)
Definition uuid := N.

(** [vector]: a pgvector embedding. *)
Definition vector := list Q.

(** [JSONB]. *)
Definition jsonb := json.

(** [tsvector]: lexemes with their positions. *)
Definition tsvector := list (string * list nat).

(** [tsquery]: the stored item sequence of a parsed query; the empty
    query [''::tsquery] has no items. *)
Inductive QueryItem : Type :=
| QVal (lexeme : string) (prefix : bool)
| QAnd
| QOr
| QNot
| QPhrase (distance : nat).

Definition tsquery := list QueryItem.

(** The PostgreSQL and pgvector built-ins the migrations call.  They are
    not part of the repository and are taken as an interface. *)
Class PgOps : Type := {
  (** [a <=> b]: cosine distance. *)
  cosine_distance : vector -> vector -> Q;
  (** [a @> b]: JSONB containment. *)
  jsonb_contains : jsonb -> jsonb -> bool;
  (** [to_tsvector('english', s)]. *)
  to_tsvector : string -> tsvector;
  (** [websearch_to_tsquery('english', s)]. *)
  websearch_to_tsquery : string -> tsquery;
  (** [v @@ q]. *)
  ts_match : tsvector -> tsquery -> bool;
  (** [ts_rank_cd(v, q)]. *)
  ts_rank_cd : tsvector -> tsquery -> Q
}.

(** [documents.status], restricted by its CHECK constraint. *)
Inductive Status : Type := pending | processing | completed | failed.

(** A row of [documents] (timestamps omitted). *)
Record Document : Type := {
  d_id : uuid;
  d_user_id : uuid;
  d_filename : string;
  d_file_type : string;
  d_file_size : Z;
  d_storage_path : string;
  d_status : Status;
  d_error_message : option string;
  d_chunk_count : option Z;
  d_metadata : option jsonb;
  d_content_hash : option string
}.

(** A row of [chunks] (timestamp omitted). *)
Record Chunk : Type := {
  c_id : uuid;
  c_document_id : uuid;
  c_user_id : uuid;
  c_content : string;
  c_chunk_index : Z;
  c_embedding : option vector;
  c_metadata : option jsonb;
  c_search_vector : option tsvector
}.

(** The tables: [auth.users] (keys only), [documents], [chunks]. *)
Record Db : Type := {
  users : list uuid;
  documents : list Document;
  chunks : list Chunk
}.

Definition empty_db : Db := {| users := []; documents := []; chunks := [] |}.

(* ================================================================== *)
(** * Retrieval functions *)
(* ================================================================== *)

Section Retrieval.
Context {pg : PgOps}.

(** A result row of [match_chunks]. *)
Record MatchRow : Type := {
  m_id : uuid;
  m_document_id : uuid;
  m_content : string;
  m_chunk_index : Z;
  m_metadata : option jsonb;
  m_similarity : option Q
}.

(** A result row of [keyword_search_chunks]. *)
Record KeywordRow : Type := {
  k_id : uuid;
  k_document_id : uuid;
  k_content : string;
  k_chunk_index : Z;
  k_metadata : option jsonb;
  k_rank : option Q
}.

(** [c.embedding <=> query_embedding]. *)
Definition distance (query_embedding : option vector) (c : Chunk) : option Q :=
  strict2 cosine_distance (c_embedding c) query_embedding.

(** [1 - (c.embedding <=> query_embedding)]. *)
Definition similarity (query_embedding : option vector) (c : Chunk) : option Q :=
  strict2 Qminus (Some (1 # 1)%Q) (distance query_embedding c).

(** [c.user_id = p_user_id]. *)
Definition owner_is (p_user_id : option uuid) (c : Chunk) : sqlbool :=
  strict2 N.eqb (Some (c_user_id c)) p_user_id.

(** [p_metadata_filter IS NULL OR c.metadata @> p_metadata_filter]. *)
Definition metadata_ok (p_metadata_filter : option jsonb) (c : Chunk) : sqlbool :=
  sql_or (sql_is_null p_metadata_filter)
         (strict2 jsonb_contains (c_metadata c) p_metadata_filter).

(** The WHERE clause of the five-parameter [match_chunks]. *)
Definition match_where (query_embedding : option vector)
    (match_threshold : option Q) (p_user_id : option uuid)
    (p_metadata_filter : option jsonb) (c : Chunk) : sqlbool :=
  sql_and
    (sql_and (owner_is p_user_id c)
             (strict2 (fun s t => Qlt_bool t s)
                      (similarity query_embedding c) match_threshold))
    (metadata_ok p_metadata_filter c).

Definition match_select (query_embedding : option vector) (c : Chunk) : MatchRow :=
  {| m_id := c_id c; m_document_id := c_document_id c;
     m_content := c_content c; m_chunk_index := c_chunk_index c;
     m_metadata := c_metadata c;
     m_similarity := similarity query_embedding c |}.

(** [ORDER BY c.embedding <=> query_embedding]. *)
Definition by_distance (query_embedding : option vector) (a b : Chunk) : bool :=
  asc_nulls_last (distance query_embedding a) (distance query_embedding b).

(** [match_chunks(query_embedding, match_threshold, match_count,
    p_user_id, p_metadata_filter)] over the [chunks] table. *)
Definition match_chunks (query_embedding : option vector)
    (match_threshold : option Q) (match_count : option Z)
    (p_user_id : option uuid) (p_metadata_filter : option jsonb)
    (tbl : list Chunk) : Result (list MatchRow) :=
  limit match_count
    (map (match_select query_embedding)
       (order_by (by_distance query_embedding)
          (filter (fun c => where_keeps
                     (match_where query_embedding match_threshold
                        p_user_id p_metadata_filter c)) tbl))).

(** The earlier four-parameter [match_chunks] (no metadata filter). *)
Definition match_where4 (query_embedding : option vector)
    (match_threshold : option Q) (p_user_id : option uuid) (c : Chunk) : sqlbool :=
  sql_and (owner_is p_user_id c)
          (strict2 (fun s t => Qlt_bool t s)
                   (similarity query_embedding c) match_threshold).

Definition match_chunks4 (query_embedding : option vector)
    (match_threshold : option Q) (match_count : option Z)
    (p_user_id : option uuid) (tbl : list Chunk) : Result (list MatchRow) :=
  limit match_count
    (map (match_select query_embedding)
       (order_by (by_distance query_embedding)
          (filter (fun c => where_keeps
                     (match_where4 query_embedding match_threshold
                        p_user_id c)) tbl))).


(** The rows of the table that belong to one owner. *)
Definition chunks_of_owner (o : uuid) (tbl : list Chunk) : list Chunk :=
  filter (fun c => (c_user_id c =? o)%N) tbl.

(** [tsq IS NULL OR tsq = ''::tsquery]. *)
Definition no_tokens (tsq : option tsquery) : sqlbool :=
  sql_or (sql_is_null tsq)
         (option_map (fun q => match q with [] => true | _ => false end) tsq).

(** [c.search_vector @@ tsq]. *)
Definition matches (tsq : option tsquery) (c : Chunk) : sqlbool :=
  strict2 ts_match (c_search_vector c) tsq.

(** [ts_rank_cd(c.search_vector, tsq)::float]. *)
Definition rank (tsq : option tsquery) (c : Chunk) : option Q :=
  strict2 ts_rank_cd (c_search_vector c) tsq.

Definition keyword_where (tsq : option tsquery) (p_user_id : option uuid)
    (p_metadata_filter : option jsonb) (c : Chunk) : sqlbool :=
  sql_and (sql_and (owner_is p_user_id c) (matches tsq c))
          (metadata_ok p_metadata_filter c).

Definition keyword_select (tsq : option tsquery) (c : Chunk) : KeywordRow :=
  {| k_id := c_id c; k_document_id := c_document_id c;
     k_content := c_content c; k_chunk_index := c_chunk_index c;
     k_metadata := c_metadata c; k_rank := rank tsq c |}.

(** [ORDER BY rank DESC]. *)
Definition by_rank_desc (tsq : option tsquery) (a b : Chunk) : bool :=
  desc_nulls_first (rank tsq a) (rank tsq b).

(** [keyword_search_chunks(p_query, p_match_count, p_user_id,
    p_metadata_filter)]; [websearch_to_tsquery] is strict. *)
Definition keyword_search_chunks (p_query : option string)
    (p_match_count : option Z) (p_user_id : option uuid)
    (p_metadata_filter : option jsonb) (tbl : list Chunk)
  : Result (list KeywordRow) :=
  let tsq := option_map websearch_to_tsquery p_query in
  if where_keeps (no_tokens tsq) then Ok []
  else
    limit p_match_count
      (map (keyword_select tsq)
         (order_by (by_rank_desc tsq)
            (filter (fun c => where_keeps
                       (keyword_where tsq p_user_id p_metadata_filter c)) tbl))).

End Retrieval.

(* ================================================================== *)
(** * Data manipulation under the schema's constraints *)
(* ================================================================== *)

Section Dml.
Context {pg : PgOps}.

Definition has_user (db : Db) (u : uuid) : bool :=
  existsb (N.eqb u) (users db).

Definition has_document (db : Db) (id : uuid) : bool :=
  existsb (fun d => (d_id d =? id)%N) (documents db).

Definition has_chunk (db : Db) (id : uuid) : bool :=
  existsb (fun c => (c_id c =? id)%N) (chunks db).

(** Trigger [trg_chunks_search_vector], run BEFORE INSERT OR UPDATE OF
    content ([content] is NOT NULL, so the COALESCE is the identity). *)
Definition chunks_search_vector_update (NEW : Chunk) : Chunk :=
  {| c_id := c_id NEW; c_document_id := c_document_id NEW;
     c_user_id := c_user_id NEW; c_content := c_content NEW;
     c_chunk_index := c_chunk_index NEW; c_embedding := c_embedding NEW;
     c_metadata := c_metadata NEW;
     c_search_vector := Some (to_tsvector (c_content NEW)) |}.

Definition set_document_id (document_id : uuid) (c : Chunk) : Chunk :=
  {| c_id := c_id c; c_document_id := document_id;
     c_user_id := c_user_id c; c_content := c_content c;
     c_chunk_index := c_chunk_index c; c_embedding := c_embedding c;
     c_metadata := c_metadata c; c_search_vector := c_search_vector c |}.

Definition set_id (id : uuid) (d : Document) : Document :=
  {| d_id := id; d_user_id := d_user_id d; d_filename := d_filename d;
     d_file_type := d_file_type d; d_file_size := d_file_size d;
     d_storage_path := d_storage_path d; d_status := d_status d;
     d_error_message := d_error_message d; d_chunk_count := d_chunk_count d;
     d_metadata := d_metadata d; d_content_hash := d_content_hash d |}.

Definition set_content (content : string) (c : Chunk) : Chunk :=
  {| c_id := c_id c; c_document_id := c_document_id c;
     c_user_id := c_user_id c; c_content := content;
     c_chunk_index := c_chunk_index c; c_embedding := c_embedding c;
     c_metadata := c_metadata c; c_search_vector := c_search_vector c |}.

(** New values for the non-key columns of a document. *)
Record DocumentPatch : Type := {
  p_status : Status;
  p_error_message : option string;
  p_chunk_count : option Z;
  p_metadata : option jsonb;
  p_content_hash : option string
}.

Definition patch_document (p : DocumentPatch) (d : Document) : Document :=
  {| d_id := d_id d; d_user_id := d_user_id d; d_filename := d_filename d;
     d_file_type := d_file_type d; d_file_size := d_file_size d;
     d_storage_path := d_storage_path d;
     d_status := p_status p; d_error_message := p_error_message p;
     d_chunk_count := p_chunk_count p; d_metadata := p_metadata p;
     d_content_hash := p_content_hash p |}.

(** The statements the application issues against the three tables. *)
Inductive Stmt : Type :=
| InsertUser (u : uuid)
| DeleteUser (u : uuid)
| InsertDocument (d : Document)
| UpdateDocument (id : uuid) (p : DocumentPatch)
| UpdateDocumentId (id new_id : uuid)
| DeleteDocument (id : uuid)
| InsertChunk (c : Chunk)
| UpdateChunkContent (id : uuid) (content : string)
| UpdateChunkDocument (id document_id : uuid)
| DeleteChunk (id : uuid)
| DeleteChunksOfDocument (document_id : uuid).

(** [DELETE FROM documents WHERE id = ...]: the foreign key
    [chunks.document_id REFERENCES documents(id) ON DELETE CASCADE]
    removes the referencing chunks in the same statement. *)
Definition delete_document (id : uuid) (db : Db) : Db :=
  {| users := users db;
     documents := filter (fun d => negb (d_id d =? id)%N) (documents db);
     chunks := filter (fun c => negb (c_document_id c =? id)%N) (chunks db) |}.

(** [DELETE FROM auth.users WHERE id = ...]: cascades to the user's
    documents (and through them to their chunks) and to the user's chunks. *)
Definition delete_user (u : uuid) (db : Db) : Db :=
  let kept := filter (fun d => negb (d_user_id d =? u)%N) (documents db) in
  {| users := filter (fun v => negb (v =? u)%N) (users db);
     documents := kept;
     chunks := filter (fun c => negb (c_user_id c =? u)%N
                                && existsb (fun d => (d_id d =? c_document_id c)%N) kept)
                      (chunks db) |}.

(** Runs one statement; a violated key or foreign key raises and leaves
    the tables as they were. *)
Definition exec (s : Stmt) (db : Db) : Result Db :=
  match s with
  | InsertUser u =>
      if has_user db u then Err "duplicate key value violates unique constraint"
      else Ok {| users := users db ++ [u]; documents := documents db;
                 chunks := chunks db |}
  | DeleteUser u => Ok (delete_user u db)
  | InsertDocument d =>
      if has_document db (d_id d)
      then Err "duplicate key value violates unique constraint"
      else if negb (has_user db (d_user_id d))
      then Err "violates foreign key constraint"
      else Ok {| users := users db; documents := documents db ++ [d];
                 chunks := chunks db |}
  | UpdateDocument id p =>
      Ok {| users := users db;
            documents := map (fun d => if (d_id d =? id)%N
                                       then patch_document p d else d)
                             (documents db);
            chunks := chunks db |}
  | UpdateDocumentId id new_id =>
      (* the foreign key has no ON UPDATE action: a referenced key cannot
         change *)
      if existsb (fun c => (c_document_id c =? id)%N) (chunks db)
      then Err "violates foreign key constraint"
      else if has_document db new_id
      then Err "duplicate key value violates unique constraint"
      else Ok {| users := users db;
                 documents := map (fun d => if (d_id d =? id)%N
                                            then set_id new_id d else d)
                                  (documents db);
                 chunks := chunks db |}
  | DeleteDocument id => Ok (delete_document id db)
  | InsertChunk c =>
      if has_chunk db (c_id c)
      then Err "duplicate key value violates unique constraint"
      else if negb (has_document db (c_document_id c))
                || negb (has_user db (c_user_id c))
      then Err "violates foreign key constraint"
      else Ok {| users := users db; documents := documents db;
                 chunks := chunks db ++ [chunks_search_vector_update c] |}
  | UpdateChunkContent id content =>
      Ok {| users := users db; documents := documents db;
            chunks := map (fun c => if (c_id c =? id)%N
                                    then chunks_search_vector_update
                                           (set_content content c)
                                    else c)
                          (chunks db) |}
  | UpdateChunkDocument id document_id =>
      if negb (has_document db document_id)
      then Err "violates foreign key constraint"
      else Ok {| users := users db; documents := documents db;
                 chunks := map (fun c => if (c_id c =? id)%N
                                         then set_document_id document_id c
                                         else c)
                               (chunks db) |}
  | DeleteChunk id =>
      Ok {| users := users db; documents := documents db;
            chunks := filter (fun c => negb (c_id c =? id)%N) (chunks db) |}
  | DeleteChunksOfDocument id =>
      Ok {| users := users db; documents := documents db;
            chunks := filter (fun c => negb (c_document_id c =? id)%N)
                             (chunks db) |}
  end.

(** The states the tables can reach from the empty database. *)
Inductive reachable : Db -> Prop :=
| reach_empty : reachable empty_db
| reach_exec s db db' :
    reachable db -> exec s db = Ok db' -> reachable db'.

(** Referential integrity of [chunks.document_id]. *)
Definition chunk_has_document (db : Db) (c : Chunk) : Prop :=
  exists d, In d (documents db) /\ d_id d = c_document_id c.

Definition no_orphan_chunks (db : Db) : Prop :=
  forall c, In c (chunks db) -> chunk_has_document db c.

(** The chunks of a document. *)
Definition chunks_of (db : Db) (id : uuid) : list Chunk :=
  filter (fun c => (c_document_id c =? id)%N) (chunks db).

End Dml.

(* ================================================================== *)
(** * The backend, as far as the clients below depend on it *)
(* ================================================================== *)

(** Modelled from the spec: the error kinds of its error-handling design
    (section 7); the backend that raises them is not in the repository. *)
Inductive ErrorKind : Type :=
| ValidationError
| TransientServiceError
| ConsistencyError
| NotFoundError.

(** What a request comes back with: [response.ok] with its JSON body, or
    an error status whose body may carry a [detail]. *)
Inductive Response (A : Type) : Type :=
| Accepted (body : A)
| Rejected (kind : ErrorKind) (detail : option string).

Arguments Accepted {A} body.
Arguments Rejected {A} kind detail.

(** A browser [File]: [size] is the byte length the browser reports for
    [content]. *)
Record File : Type := {
  name : string;
  size : Z;
  content : string
}.

(** The single row of [global_settings]. *)
Record GlobalSettings : Type := {
  llm_model : option string;
  llm_base_url : option string;
  llm_api_key : option string;
  embedding_model : option string;
  embedding_base_url : option string;
  embedding_api_key : option string;
  embedding_dimensions : option Z;
  reranker_model : option string;
  reranker_api_key : option string
}.

(** The body of a settings update: [None] is [null]. *)
Definition GlobalSettingsUpdate := GlobalSettings.

(** The body of a settings response. *)
Record SettingsView : Type := {
  view : GlobalSettings;
  has_chunks : bool
}.

(** Modelled from the spec: the body of an upload response, "the
    created/updated Document summary, including a flag indicating the
    upload was skipped as unchanged" (section 6).  [DocumentUpload]
    imports its type from [lib/api] and reads [skipped]; the declaration
    itself is not in the repository snapshot. *)
Record UploadDocumentResult : Type := {
  document : Document;
  skipped : bool
}.

(** The server: its tables and its settings row (from the migrations), and
    its upload limits.  Modelled from the spec: the limits are the "size
    bound" and "extension allowlist" of the upload interface (section 6),
    whose values the backend, not in the repository, configures. *)
Record Server : Type := {
  db : Db;
  settings : GlobalSettings;
  upload_allowlist : list string;
  upload_max_bytes : Z
}.

(** ['.' + name.split('.').pop()?.toLowerCase()]. *)
Definition extension_of (filename : string) : string :=
  match fst (pop (split "."%char filename)) with
  | Some p => ("." ++ toLowerCase p)%string
  | None => ".undefined"
  end.

Section Backend.
Context {pg : PgOps}.

(** Modelled from the spec: the content fingerprint of the Record
    Manager, a deterministic hash of the uploaded bytes; the hash function
    itself is not in the repository. *)
Variable fingerprint : string -> string.

(** Modelled from the spec: the Record Manager's verdict (section 4.1);
    the backend that computes it is not in the repository. *)
Inductive Verdict : Type :=
| VNew
| VChanged (prior : Document)
| VUnchanged (prior : Document).

(** Modelled from the spec: the most recent document of (owner, filename);
    rows are appended, so it is the last match in table order. *)
Definition latest_document (d : Db) (owner : uuid) (filename : string)
  : option Document :=
  fold_left (fun acc doc =>
               if (d_user_id doc =? owner)%N && (d_filename doc =? filename)%string
               then Some doc else acc)
            (documents d) None.

(** Modelled from the spec: [decide(owner, filename, rawBytes)], a pure
    function of the persisted state and the proposed bytes. *)
Definition decide (d : Db) (owner : uuid) (filename : string) (bytes : string)
  : Verdict :=
  match latest_document d owner filename with
  | None => VNew
  | Some prior =>
      match d_content_hash prior with
      | Some h => if (h =? fingerprint bytes)%string
                  then VUnchanged prior else VChanged prior
      | None => VChanged prior
      end
  end.

(** Modelled from the spec: the key of a newly accepted document, one that
    no document uses yet (the column default [gen_random_uuid()]). *)
Definition fresh_document_id (d : Db) : uuid :=
  N.succ (fold_right N.max 0%N (map d_id (documents d))).

(** Modelled from the spec: the size bound and extension allowlist of the
    upload interface (section 6). *)
Definition server_accepts (sv : Server) (f : File) : bool :=
  includes (upload_allowlist sv) (extension_of (name f))
  && (size f <=? upload_max_bytes sv).

Definition with_db (sv : Server) (d : Db) : Server :=
  {| db := d; settings := settings sv;
     upload_allowlist := upload_allowlist sv;
     upload_max_bytes := upload_max_bytes sv |}.

(** Modelled from the spec: the upload endpoint (sections 4.1, 4.5, 6),
    which is not in the repository.  A rejected file is a
    [ValidationError]; an unchanged file is answered with the existing
    document and [skipped], touching nothing; a new file gets a [pending]
    document; a changed file has the prior document's chunks deleted and
    the document reset to [pending] with the new fingerprint.  Indexing
    itself runs later and is not part of the request; a statement the
    tables refuse is answered as a server error. *)
Definition upload_endpoint (owner : uuid) (f : File) (sv : Server)
  : Response UploadDocumentResult * Server :=
  if negb (server_accepts sv f)
  then (Rejected ValidationError (Some "Unsupported or oversized file"), sv)
  else
    match decide (db sv) owner (name f) (content f) with
    | VUnchanged prior =>
        (Accepted {| document := prior; skipped := true |}, sv)
    | VNew =>
        let doc := {| d_id := fresh_document_id (db sv); d_user_id := owner;
                      d_filename := name f;
                      d_file_type := extension_of (name f);
                      d_file_size := size f; d_storage_path := name f;
                      d_status := pending; d_error_message := None;
                      d_chunk_count := Some 0; d_metadata := None;
                      d_content_hash := Some (fingerprint (content f)) |} in
        match exec (InsertDocument doc) (db sv) with
        | Ok d' => (Accepted {| document := doc; skipped := false |},
                    with_db sv d')
        | Err msg => (Rejected TransientServiceError (Some msg), sv)
        end
    | VChanged prior =>
        let p := {| p_status := pending; p_error_message := None;
                    p_chunk_count := Some 0; p_metadata := None;
                    p_content_hash := Some (fingerprint (content f)) |} in
        match exec (DeleteChunksOfDocument (d_id prior)) (db sv) with
        | Ok d1 =>
            match exec (UpdateDocument (d_id prior) p) d1 with
            | Ok d2 => (Accepted {| document := patch_document p prior;
                                    skipped := false |}, with_db sv d2)
            | Err msg => (Rejected TransientServiceError (Some msg), sv)
            end
        | Err msg => (Rejected TransientServiceError (Some msg), sv)
        end
    end.

(** Modelled from the spec: whether "any Chunk exists anywhere in the
    system" (section 6), the [has_chunks] flag of the settings response. *)
Definition any_chunk (d : Db) : bool :=
  match chunks d with [] => false | _ :: _ => true end.

Definition is_some {A} (x : option A) : bool :=
  match x with Some _ => true | None => false end.

(** Modelled from the spec: whether an update carries an
    embedding-related field (model, base URL, API key, dimensionality). *)
Definition carries_embedding_field (u : GlobalSettingsUpdate) : bool :=
  is_some (embedding_model u) || is_some (embedding_base_url u)
  || is_some (embedding_api_key u) || is_some (embedding_dimensions u).

(** The embedding-related part of the settings row. *)
Definition embedding_fields (s : GlobalSettings)
  : option string * option string * option string * option Z :=
  (embedding_model s, embedding_base_url s, embedding_api_key s,
   embedding_dimensions s).

Definition or_else {A} (x y : option A) : option A :=
  match x with Some _ => x | None => y end.

(** Modelled from the spec: an update overwrites the fields it carries. *)
Definition apply_update (u : GlobalSettingsUpdate) (s : GlobalSettings)
  : GlobalSettings :=
  {| llm_model := or_else (llm_model u) (llm_model s);
     llm_base_url := or_else (llm_base_url u) (llm_base_url s);
     llm_api_key := or_else (llm_api_key u) (llm_api_key s);
     embedding_model := or_else (embedding_model u) (embedding_model s);
     embedding_base_url := or_else (embedding_base_url u) (embedding_base_url s);
     embedding_api_key := or_else (embedding_api_key u) (embedding_api_key s);
     embedding_dimensions :=
       or_else (embedding_dimensions u) (embedding_dimensions s);
     reranker_model := or_else (reranker_model u) (reranker_model s);
     reranker_api_key := or_else (reranker_api_key u) (reranker_api_key s) |}.

Definition with_settings (sv : Server) (s : GlobalSettings) : Server :=
  {| db := db sv; settings := s;
     upload_allowlist := upload_allowlist sv;
     upload_max_bytes := upload_max_bytes sv |}.

(** Modelled from the spec: the settings update endpoint (section 6,
    "embedding-related fields are rejected if any Chunk exists anywhere in
    the system", with [ConsistencyError] per section 7); the backend
    handler is not in the repository. *)
Definition put_settings (u : GlobalSettingsUpdate) (sv : Server)
  : Response SettingsView * Server :=
  if any_chunk (db sv) && carries_embedding_field u
  then (Rejected ConsistencyError
          (Some "Embedding settings cannot be changed while chunks exist"), sv)
  else
    let s' := apply_update u (settings sv) in
    (Accepted {| view := s'; has_chunks := any_chunk (db sv) |},
     with_settings sv s').

End Backend.

(* ================================================================== *)
(** * The browser client *)
(* ================================================================== *)

(** A request that left the browser. *)
Inductive Request : Type :=
| PostUpload (f : File)
| PutSettings (u : GlobalSettingsUpdate).

(** What a client call runs against: the signed-in user (if any), the
    server, and the requests sent so far. *)
Record World : Type := {
  session : option uuid;
  server : Server;
  requests : list Request
}.

(** [error.detail || fallback]. *)
Definition detail_or (detail : option string) (fallback : string) : string :=
  match detail with
  | Some d => if (d =? "")%string then fallback else d
  | None => fallback
  end.

Section Client.
Context {pg : PgOps}.
Variable fingerprint : string -> string.

(** [uploadDocument(file)] of [lib/api.ts]. *)
Definition uploadDocument (file : File) (w : World)
  : Result UploadDocumentResult * World :=
  match session w with
  | None => (Err "Not authenticated", w)
  | Some owner =>
      let (response, sv) := upload_endpoint fingerprint owner file (server w) in
      let w' := {| session := session w; server := sv;
                   requests := requests w ++ [PostUpload file] |} in
      match response with
      | Accepted body => (Ok body, w')
      | Rejected _ detail => (Err (detail_or detail "Upload failed"), w')
      end
  end.

(** [updateSettings(settings)] of [lib/api.ts], through [fetchApi]. *)
Definition updateSettings (u : GlobalSettingsUpdate) (w : World)
  : Result SettingsView * World :=
  match session w with
  | None => (Err "Not authenticated", w)
  | Some _ =>
      let (response, sv) := put_settings u (server w) in
      let w' := {| session := session w; server := sv;
                   requests := requests w ++ [PutSettings u] |} in
      match response with
      | Accepted body => (Ok body, w')
      | Rejected _ detail => (Err (detail_or detail "Request failed"), w')
      end
  end.

(** ** DocumentUpload *)

Definition ALLOWED_EXTENSIONS : list string := [".txt"; ".md"].

(** [10 * 1024 * 1024]. *)
Definition MAX_FILE_SIZE : Z := 10 * 1024 * 1024.

(** [validateFile(file)]: [None] is [null]. *)
Definition validateFile (file : File) : option string :=
  let ext := extension_of (name file) in
  if negb (includes ALLOWED_EXTENSIONS ext)
  then Some ("Unsupported file type. Allowed: "
             ++ join ", " ALLOWED_EXTENSIONS)%string
  else if MAX_FILE_SIZE <? size file
  then Some "File too large. Maximum size is 10 MB."
  else None.

(** The component state [handleUpload] writes, and the number of
    [onUploadComplete] calls. *)
Record UploadUi : Type := {
  error : option string;
  info : option string;
  uploading : bool;
  completions : nat
}.

(** The first loop of [handleUpload]: the first validation error, if any. *)
Fixpoint first_validation_error (files : list File) : option string :=
  match files with
  | [] => None
  | file :: rest =>
      match validateFile file with
      | Some validationError => Some validationError
      | None => first_validation_error rest
      end
  end.

(** The second loop of [handleUpload]: uploads the files in order and
    collects the names of the skipped ones; stops at the first upload
    that throws. *)
Fixpoint upload_all (files : list File) (skippedFiles : list string) (w : World)
  : Result (list string) * World :=
  match files with
  | [] => (Ok skippedFiles, w)
  | file :: rest =>
      match uploadDocument file w with
      | (Ok result, w') =>
          upload_all rest
            (if skipped result then skippedFiles ++ [name file]
             else skippedFiles) w'
      | (Err msg, w') => (Err msg, w')
      end
  end.

(** The notice shown for skipped files. *)
Definition skipped_notice (skippedFiles : list string) : string :=
  (String dquote (join (String dquote (", " ++ String dquote "")) skippedFiles)
   ++ String dquote " is unchanged — skipped re-processing.")%string.

(** [handleUpload(files)]. *)
Definition handleUpload (files : list File) (ui : UploadUi) (w : World)
  : UploadUi * World :=
  match first_validation_error files with
  | Some validationError =>
      ({| error := Some validationError; info := None;
          uploading := uploading ui; completions := completions ui |}, w)
  | None =>
      match upload_all files [] w with
      | (Ok skippedFiles, w') =>
          ({| error := None;
              info := match skippedFiles with
                      | [] => None
                      | _ :: _ => Some (skipped_notice skippedFiles)
                      end;
              uploading := false;
              completions := S (completions ui) |}, w')
      | (Err msg, w') =>
          ({| error := Some msg; info := None; uploading := false;
              completions := completions ui |}, w')
      end
  end.

(** ** SettingsPage *)

(** The form fields of the settings page. *)
Record SettingsForm : Type := {
  llmModel : string;
  llmBaseUrl : string;
  llmApiKey : string;
  embeddingModel : string;
  embeddingBaseUrl : string;
  embeddingApiKey : string;
  embeddingDimensions : string;
  rerankerModel : string;
  rerankerApiKey : string
}.

(** [s || null]. *)
Definition or_null (s : string) : option string :=
  if (s =? "")%string then None else Some s.

Definition digit_of (c : ascii) : option Z :=
  let n := nat_of_ascii c in
  if ((48 <=? n) && (n <=? 57))%nat then Some (Z.of_nat n - 48) else None.

Fixpoint parse_digits (s : string) (acc : option Z) : option Z :=
  match s with
  | EmptyString => acc
  | String c rest =>
      match digit_of c with
      | Some d => parse_digits rest
                    (Some (10 * match acc with Some a => a | None => 0 end + d))
      | None => acc
      end
  end.

(** [parseInt(s, 10)]: [None] is [NaN], which [JSON.stringify] writes as
    [null]. *)
Definition parseInt10 (s : string) : option Z :=
  match trimStart s with
  | String "-" rest => option_map Z.opp (parse_digits rest None)
  | String "+" rest => parse_digits rest None
  | t => parse_digits t None
  end.

(** The update [handleSave] builds from the form. *)
Definition build_update (f : SettingsForm) : GlobalSettingsUpdate :=
  {| llm_model := or_null (llmModel f);
     llm_base_url := or_null (llmBaseUrl f);
     llm_api_key := or_null (llmApiKey f);
     embedding_model := or_null (embeddingModel f);
     embedding_base_url := or_null (embeddingBaseUrl f);
     embedding_api_key := or_null (embeddingApiKey f);
     embedding_dimensions :=
       if (embeddingDimensions f =? "")%string then None
       else parseInt10 (embeddingDimensions f);
     reranker_model := or_null (rerankerModel f);
     reranker_api_key := or_null (rerankerApiKey f) |}.

(** The component state [handleSave] writes. *)
Record SaveUi : Type := {
  saving : bool;
  save_error : option string;
  success : bool
}.

(** [handleSave()]. *)
Definition handleSave (f : SettingsForm) (w : World) : SaveUi * World :=
  match updateSettings (build_update f) w with
  | (Ok _, w') =>
      ({| saving := false; save_error := None; success := true |}, w')
  | (Err msg, w') =>
      ({| saving := false; save_error := Some msg; success := false |}, w')
  end.

End Client.

(* ================================================================== *)
(** * The event-stream reader of [sendMessage] *)
(* ================================================================== *)

(** A callback invocation, with its argument. *)
Inductive Callback : Type :=
| onTextDelta (text : json)
| onDone
| onError (error : json).

(** The response of the chat endpoint as [sendMessage] sees it. *)
Record ChatResponse : Type := {
  ok : bool;
  detail : option string;
  (** [response.body]: the bytes of each successful [read()], in order,
      or [None] when there is no body. *)
  body : option (list (list byte));
  (** Whether the read after the last chunk rejects (for instance on
      abort) instead of reporting [done]. *)
  read_fails : option string
}.

(** The platform functions [sendMessage] calls.  They are not part of the
    repository and are taken as an interface. *)
Class Platform : Type := {
  (** [JSON.parse]: [None] when it throws a [SyntaxError]. *)
  JSON_parse : string -> option json;
  (** The state of a [TextDecoder]. *)
  decoder : Type;
  (** [new TextDecoder()]. *)
  new_decoder : decoder;
  (** One byte through a streaming decoder: its next state and the text
      it emits. *)
  decode_byte : decoder -> byte -> decoder * string
}.

Section Sse.
Context {js : Platform}.

(** [decoder.decode(value, { stream: true })]. *)
Fixpoint decode (d : decoder) (value : list byte) : decoder * string :=
  match value with
  | [] => (d, "")
  | b :: rest =>
      let (d1, s1) := decode_byte d b in
      let (d2, s2) := decode d1 rest in
      (d2, (s1 ++ s2)%string)
  end.

(** The body of the [data: ] branch, inside its [try]. *)
Definition dispatch_data (data : string) : list Callback :=
  match JSON_parse data with
  | None => []
  | Some parsed =>
      match get_prop parsed "content" with
      | Err _ => []
      | Ok content =>
          (match content with
           | Some c => if truthy content then [onTextDelta c] else []
           | None => []
           end)
          ++
          (match get_prop parsed "error" with
           | Err _ => []
           | Ok error =>
               match error with
               | Some e => if truthy error then [onError e] else []
               | None => []
               end
           end)
      end
  end.

(** The body of [for (const line of lines)]. *)
Definition dispatch_line (line : string) : list Callback :=
  if startsWith "event: " line then
    let eventType := trim (slice 7 line) in
    if (eventType =? "done")%string then [onDone] else []
  else if startsWith "data: " line then
    dispatch_data (slice 6 line)
  else [].

(** The [while (true)] loop: each read is decoded and appended to the
    buffer, the buffer is split at line feeds, the last piece is kept and
    the others are dispatched.  Returns the callbacks in order and the
    final buffer. *)
Fixpoint read_loop (reads : list (list byte)) (d : decoder) (buffer : string)
  : list Callback * string :=
  match reads with
  | [] => ([], buffer)
  | value :: rest =>
      let (d', chunk) := decode d value in
      let buffer1 := (buffer ++ chunk)%string in
      let (last, lines) := pop (split LF buffer1) in
      let (calls, final) := read_loop rest d' (or_empty last) in
      (flat_map dispatch_line lines ++ calls, final)
  end.

(** [sendMessage(options)]: the callbacks it invokes and how it returns. *)
Definition sendMessage (signed_in : bool) (response : ChatResponse)
  : list Callback * Result unit :=
  if negb signed_in then ([], Err "Not authenticated")
  else if negb (ok response)
  then ([], Err (detail_or (detail response) "Request failed"))
  else match body response with
       | None => ([], Err "No response body")
       | Some reads =>
           (fst (read_loop reads new_decoder ""),
            match read_fails response with
            | Some e => Err e
            | None => Ok tt
            end)
       end.

(** The complete lines of a text: every piece before its last line feed. *)
Definition complete_lines (text : string) : list string :=
  snd (pop (split LF text)).

(** What follows the last line feed of a text. *)
Definition pending_text (text : string) : string :=
  or_empty (fst (pop (split LF text))).

(** The text a decoder in state [d] makes of the bytes of the reads. *)
Definition decoded_text (d : decoder) (reads : list (list byte)) : string :=
  snd (decode d (List.concat reads)).

(** The text of a stream. *)
Definition stream_text (reads : list (list byte)) : string :=
  decoded_text new_decoder reads.

(** The callbacks of a stream that is answered and read to its end. *)
Definition calls_of (reads : list (list byte)) : list Callback :=
  fst (sendMessage true {| ok := true; detail := None; body := Some reads;
                           read_fails := None |}).







End Sse.

(* ================================================================== *)
(** * Sample instances, used to run the definitions *)
(* ================================================================== *)

Module Samples.

(** A reader for flat JSON objects with string members and no escapes,
    enough to run the stream reader on concrete event streams. *)
Fixpoint read_string (s : string) : option (string * string) :=
  match s with
  | EmptyString => None
  | String c rest =>
      if Ascii.eqb c dquote then Some (EmptyString, rest)
      else if Ascii.eqb c "\"%char then None
      else match read_string rest with
           | Some (x, r) => Some (String c x, r)
           | None => None
           end
  end.

Fixpoint read_members (fuel : nat) (s : string)
  : option (list (string * json)) :=
  match fuel with
  | O => None
  | S fuel' =>
      match s with
      | String q rest =>
          if Ascii.eqb q dquote then
            match read_string rest with
            | Some (k, String ":" (String q2 rest2)) =>
                if Ascii.eqb q2 dquote then
                  match read_string rest2 with
                  | Some (v, "}") => Some [(k, JStr v)]
                  | Some (v, String "," rest3) =>
                      option_map (cons (k, JStr v)) (read_members fuel' rest3)
                  | _ => None
                  end
                else None
            | _ => None
            end
          else None
      | EmptyString => None
      end
  end.

Definition parse_flat (s : string) : option json :=
  match s with
  | "{}" => Some (JObj [])
  | "null" => Some JNull
  | String "{" rest => option_map JObj (read_members (String.length rest) rest)
  | _ => None
  end.

(** Lower-case words of a text, split at anything but letters and digits. *)
Definition is_alnum (c : ascii) : bool :=
  let n := nat_of_ascii c in
  (((48 <=? n) && (n <=? 57)) || ((97 <=? n) && (n <=? 122)))%nat.

Fixpoint words_from (s : string) (cur : string) : list string :=
  match s with
  | EmptyString => if (cur =? "")%string then [] else [cur]
  | String c rest =>
      let c' := lower_char c in
      if is_alnum c' then words_from rest (cur ++ String c' "")%string
      else if (cur =? "")%string then words_from rest ""
           else cur :: words_from rest ""
  end.

Definition words (s : string) : list string := words_from s "".

(** Containment between flat JSON objects: every member of the right
    operand is a member of the left one. *)
Definition json_eqb_str (a b : json) : bool :=
  match a, b with
  | JStr x, JStr y => (x =? y)%string
  | _, _ => false
  end.

Definition contains_flat (a b : json) : bool :=
  match a, b with
  | JObj ma, JObj mb =>
      forallb (fun kb => existsb (fun ka => (fst ka =? fst kb)%string
                                           && json_eqb_str (snd ka) (snd kb)) ma)
              mb
  | _, _ => false
  end.

(** A distance on one-dimensional embeddings, for running queries. *)
Definition gap (a b : vector) : Q :=
  match a, b with
  | x :: _, y :: _ => Qabs (x - y)%Q
  | _, _ => (1 # 1)%Q
  end.

#[export] Instance sample_pg : PgOps := {|
  cosine_distance := gap;
  jsonb_contains := contains_flat;
  to_tsvector := fun s => map (fun w => (w, [])) (words s);
  websearch_to_tsquery := fun s => map (fun w => QVal w false) (words s);
  ts_match := fun v q =>
    forallb (fun i => match i with
                      | QVal w _ => existsb (fun e => (fst e =? w)%string) v
                      | _ => true
                      end) q;
  ts_rank_cd := fun v q => (Z.of_nat (List.length v) # 1)%Q
|}.

Definition sample_fingerprint (bytes : string) : string := bytes.

Definition mk_chunk (id doc user : N) (text : string) (e : Q)
    (meta : option jsonb) : Chunk :=
  {| c_id := id; c_document_id := doc; c_user_id := user; c_content := text;
     c_chunk_index := 0; c_embedding := Some [e]; c_metadata := meta;
     c_search_vector := Some (to_tsvector text) |}.

Definition report_meta : jsonb := JObj [("document_type", JStr "report")].
Definition memo_meta : jsonb := JObj [("document_type", JStr "memo")].

(** Owner 1 has three chunks, owner 2 has one. *)
Definition table1 : list Chunk :=
  [ mk_chunk 1 10 1 "alpha beta" (1 # 10)%Q (Some report_meta);
    mk_chunk 2 10 1 "beta gamma" (5 # 10)%Q (Some memo_meta);
    mk_chunk 3 11 2 "alpha" (0 # 1)%Q (Some report_meta);
    mk_chunk 4 10 1 "gamma delta" (3 # 10)%Q None ].

(** The same chunks for owner 1, other chunks for other owners. *)
Definition table2 : list Chunk :=
  [ mk_chunk 7 12 3 "beta" (2 # 10)%Q None;
    mk_chunk 1 10 1 "alpha beta" (1 # 10)%Q (Some report_meta);
    mk_chunk 2 10 1 "beta gamma" (5 # 10)%Q (Some memo_meta);
    mk_chunk 4 10 1 "gamma delta" (3 # 10)%Q None ].

(** A server holding one completed document of owner 1 with one chunk;
    its upload limit (1 MiB) is below the client's (10 MiB). *)
Definition doc_a : Document :=
  {| d_id := 10%N; d_user_id := 1%N; d_filename := "a.txt";
     d_file_type := ".txt"; d_file_size := 5; d_storage_path := "1/a.txt";
     d_status := completed; d_error_message := None;
     d_chunk_count := Some 1; d_metadata := None;
     d_content_hash := Some (sample_fingerprint "hello") |}.

Definition db_users : Db :=
  {| users := [1%N]; documents := []; chunks := [] |}.

Definition db_docs : Db :=
  {| users := [1%N]; documents := [doc_a]; chunks := [] |}.

Definition db0 : Db :=
  {| users := [1%N]; documents := [doc_a];
     chunks := [mk_chunk 1 10 1 "hello" (1 # 10)%Q None] |}.

Definition settings0 : GlobalSettings :=
  {| llm_model := Some "gpt-4o"; llm_base_url := None; llm_api_key := None;
     embedding_model := Some "text-embedding-3-small";
     embedding_base_url := None; embedding_api_key := None;
     embedding_dimensions := Some 1536;
     reranker_model := None; reranker_api_key := None |}.

Definition server0 : Server :=
  {| db := db0; settings := settings0;
     upload_allowlist := [".txt"; ".md"]; upload_max_bytes := 1048576 |}.

Definition world0 : World :=
  {| session := Some 1%N; server := server0; requests := [] |}.

Definition file_a : File := {| name := "a.txt"; size := 5; content := "hello" |}.

Definition ui0 : UploadUi :=
  {| error := None; info := None; uploading := false; completions := 0 |}.

(** An update that changes the embedding dimensionality only. *)
Definition new_dimensions : GlobalSettingsUpdate :=
  {| llm_model := None; llm_base_url := None; llm_api_key := None;
     embedding_model := None; embedding_base_url := None;
     embedding_api_key := None; embedding_dimensions := Some 3072;
     reranker_model := None; reranker_api_key := None |}.

(** A decoder for one-byte characters, and the sample platform. *)
Definition decode_latin1 (d : unit) (b : byte) : unit * string :=
  (d, String (ascii_of_byte b) "").

#[export] Instance sample_js : Platform := {|
  JSON_parse := parse_flat;
  decoder := unit;
  new_decoder := tt;
  decode_byte := decode_latin1
|}.

(** The bytes of a text followed by a line feed; the bytes of a text. *)
Definition line (s : string) : list byte :=
  list_byte_of_string (s ++ String LF "").

Definition bytes (s : string) : list byte := list_byte_of_string s.



(** A text delta and an error, cut at lines and cut in the middle. *)
Definition delta_then_error : list (list byte) :=
  [ line (dq "data: {'content':'hi'}"); line (dq "data: {'error':'boom'}") ].

Definition delta_then_error_recut : list (list byte) :=
  [ bytes "da"; bytes (dq "ta: {'content':'hi'}"); line "";
    bytes (dq "data: {'err"); line (dq "or':'boom'}") ].

End Samples.


(* ================================================================== *)
(** * Further code of the same files *)
(* ================================================================== *)

(** ** Keyword ranking *)

(** Row [r1] ranks at least as high as row [r2]. *)
Definition at_least_as_ranked (r1 r2 : KeywordRow) : Prop :=
  exists s1 s2, k_rank r1 = Some s1 /\ k_rank r2 = Some s2 /\ (s2 <= s1)%Q.

(** ** The hybrid-search migration: back-fill of [search_vector] *)

Section SearchVector.
Context {pg : PgOps}.

(** [UPDATE chunks SET search_vector = to_tsvector('english',
    COALESCE(content, '')) WHERE search_vector IS NULL]: the assignment is
    the one of the trigger; the trigger itself does not fire, [content]
    not being among the updated columns. *)
Definition backfill_search_vector (tbl : list Chunk) : list Chunk :=
  map (fun c => match c_search_vector c with
                | None => chunks_search_vector_update c
                | Some _ => c
                end) tbl.

(** Every chunk's search vector is the one of its content. *)
Definition indexed (tbl : list Chunk) : Prop :=
  forall c, In c tbl -> c_search_vector c = Some (to_tsvector (c_content c)).

End SearchVector.

(** ** The global-settings migration: profiles and the settings row *)

(** A row of [auth.users], as far as the migration reads it. *)
Record AuthUser : Type := {
  u_id : uuid;
  u_email : option string
}.

(** A row of [user_profiles] (timestamp omitted). *)
Record UserProfile : Type := {
  up_user_id : uuid;
  up_is_admin : bool
}.

Definition has_profile (profiles : list UserProfile) (id : uuid) : bool :=
  existsb (fun p => (up_user_id p =? id)%N) profiles.

(** [INSERT INTO user_profiles (user_id, is_admin) VALUES (id, false)
    ON CONFLICT (user_id) DO NOTHING]. *)
Definition insert_profile (id : uuid) (profiles : list UserProfile)
  : list UserProfile :=
  if has_profile profiles id then profiles
  else profiles ++ [{| up_user_id := id; up_is_admin := false |}].

(** Trigger function [create_user_profile], run after each insert on
    [auth.users]. *)
Definition create_user_profile (NEW : AuthUser) (profiles : list UserProfile)
  : list UserProfile :=
  insert_profile (u_id NEW) profiles.

(** Step 3: [INSERT INTO user_profiles SELECT id, false FROM auth.users
    ON CONFLICT (user_id) DO NOTHING]. *)
Definition backfill_profiles (auth_users : list AuthUser)
    (profiles : list UserProfile) : list UserProfile :=
  fold_left (fun acc u => insert_profile (u_id u) acc) auth_users profiles.

Definition is_test_user (u : AuthUser) : bool :=
  match u_email u with
  | Some e => (e =? "test@user.com")%string
  | None => false
  end.

Definition make_admin (id : uuid) (p : UserProfile) : UserProfile :=
  if (up_user_id p =? id)%N
  then {| up_user_id := up_user_id p; up_is_admin := true |}
  else p.

(** Step 4: [UPDATE user_profiles SET is_admin = true WHERE user_id =
    (SELECT id FROM auth.users WHERE email = 'test@user.com')].  The
    scalar subquery is NULL when no user matches (then no row is
    updated) and raises when several do. *)
Definition set_test_admin (auth_users : list AuthUser)
    (profiles : list UserProfile) : Result (list UserProfile) :=
  match filter is_test_user auth_users with
  | [] => Ok profiles
  | [u] => Ok (map (make_admin (u_id u)) profiles)
  | _ :: _ :: _ =>
      Err "more than one row returned by a subquery used as an expression"
  end.

(** Steps 1 to 4 on the freshly created, empty [user_profiles]. *)
Definition migrate_profiles (auth_users : list AuthUser)
  : Result (list UserProfile) :=
  set_test_admin auth_users (backfill_profiles auth_users []).

(** A row of the earlier [user_settings] table. *)
Record UserSettings : Type := {
  us_llm_model : option string;
  us_llm_base_url : option string;
  us_llm_api_key : option string;
  us_embedding_model : option string;
  us_embedding_base_url : option string;
  us_embedding_api_key : option string;
  us_embedding_dimensions : option Z
}.

(** The columns step 7 copies; the reranker columns, added by a later
    migration, are NULL. *)
Definition settings_of_user (r : UserSettings) : GlobalSettings :=
  {| llm_model := us_llm_model r; llm_base_url := us_llm_base_url r;
     llm_api_key := us_llm_api_key r;
     embedding_model := us_embedding_model r;
     embedding_base_url := us_embedding_base_url r;
     embedding_api_key := us_embedding_api_key r;
     embedding_dimensions := us_embedding_dimensions r;
     reranker_model := None; reranker_api_key := None |}.

Definition empty_settings : GlobalSettings :=
  {| llm_model := None; llm_base_url := None; llm_api_key := None;
     embedding_model := None; embedding_base_url := None;
     embedding_api_key := None; embedding_dimensions := None;
     reranker_model := None; reranker_api_key := None |}.

(** Step 7: if the table [user_settings] exists ([Some]), insert the
    columns of one of its rows ([LIMIT 1]: the first in table order). *)
Definition seed_global_settings (user_settings : option (list UserSettings))
    (global_settings : list GlobalSettings) : list GlobalSettings :=
  match user_settings with
  | Some (r :: _) => global_settings ++ [settings_of_user r]
  | Some [] | None => global_settings
  end.

(** Step 8: [INSERT INTO global_settings (id) SELECT gen_random_uuid()
    WHERE NOT EXISTS (SELECT 1 FROM global_settings)]. *)
Definition insert_empty_row (global_settings : list GlobalSettings)
  : list GlobalSettings :=
  match global_settings with
  | [] => [empty_settings]
  | _ :: _ => global_settings
  end.

(** ** [useRealtimeDocuments]: the list kept from change events *)

(** A [postgres_changes] payload on [documents]. *)
Inductive Change : Type :=
| INSERT (new : Document)
| UPDATE (new : Document)
| DELETE (old_id : uuid).

(** The state update of the subscription callback. *)
Definition apply_change (payload : Change) (prev : list Document)
  : list Document :=
  match payload with
  | INSERT new => new :: prev
  | UPDATE new =>
      map (fun doc => if (d_id doc =? d_id new)%N then new else doc) prev
  | DELETE old_id =>
      filter (fun doc => negb (d_id doc =? old_id)%N) prev
  end.

(** ** [ChatView.doSend]: the title given to a thread *)

(** [s.substring(0, n)]. *)
Fixpoint substring_to (n : nat) (s : string) : string :=
  match n, s with
  | O, _ => EmptyString
  | S _, EmptyString => EmptyString
  | S k, String c rest => String c (substring_to k rest)
  end.

(** [userMessage.length > 50 ? userMessage.substring(0, 47) + '...'
    : userMessage]. *)
Definition thread_title (userMessage : string) : string :=
  if (50 <? String.length userMessage)%nat
  then (substring_to 47 userMessage ++ "...")%string
  else userMessage.

(** ** [UserMenu.getAvatarColor] *)

Definition colors : list string :=
  [ "bg-orange-500"; "bg-blue-500"; "bg-green-500"; "bg-purple-500";
    "bg-pink-500"; "bg-yellow-500"; "bg-red-500"; "bg-indigo-500" ].

(** ToInt32: the value modulo [2^32], taken in [-2^31, 2^31). *)
Definition to_int32 (z : Z) : Z := (z + 2 ^ 31) mod 2 ^ 32 - 2 ^ 31.

(** [x << k] for [0 <= k < 32]. *)
Definition shift_left32 (x k : Z) : Z := to_int32 (to_int32 x * 2 ^ k).

(** [email.charCodeAt(i)]. *)
Definition char_code (c : ascii) : Z := Z.of_nat (nat_of_ascii c).

(** The loop [hash = email.charCodeAt(i) + ((hash << 5) - hash)]. *)
Fixpoint avatar_hash (email : string) (hash : Z) : Z :=
  match email with
  | EmptyString => hash
  | String c rest =>
      avatar_hash rest (char_code c + (shift_left32 hash 5 - hash))
  end.

(** [colors[Math.abs(hash) % colors.length]]: [None] is [undefined]. *)
Definition getAvatarColor (email : string) : option string :=
  nth_error colors
    (Z.to_nat (Z.abs (avatar_hash email 0) mod Z.of_nat (List.length colors))).

(** ** [SettingsPage.loadSettings] and printing of integers *)

Definition digit_char (d : Z) : ascii := ascii_of_nat (48 + Z.to_nat d).

Fixpoint digits_fuel (fuel : nat) (n : Z) (acc : string) : string :=
  match fuel with
  | O => acc
  | S fuel' =>
      let acc' := String (digit_char (n mod 10)) acc in
      if n / 10 =? 0 then acc' else digits_fuel fuel' (n / 10) acc'
  end.

(** The value [parse_digits] has read so far. *)
Definition acc_value (a : option Z) : Z :=
  match a with Some x => x | None => 0 end.

(** The decimal digits of a non-negative integer. *)
Definition digits (n : Z) : string :=
  digits_fuel (S (Z.to_nat (Z.log2 n))) n "".

(** [n.toString()] for an integer [n]. *)
Definition Z_toString (n : Z) : string :=
  if n <? 0 then String "-" (digits (- n)) else digits n.

(** [s || ''] on a nullable string. *)
Definition or_blank (s : option string) : string :=
  match s with Some x => x | None => "" end.

(** The fields [loadSettings] writes from the settings it fetched. *)
Definition form_of_settings (s : GlobalSettings) : SettingsForm :=
  {| llmModel := or_blank (llm_model s);
     llmBaseUrl := or_blank (llm_base_url s);
     llmApiKey := or_blank (llm_api_key s);
     embeddingModel := or_blank (embedding_model s);
     embeddingBaseUrl := or_blank (embedding_base_url s);
     embeddingApiKey := or_blank (embedding_api_key s);
     embeddingDimensions :=
       or_blank (option_map Z_toString (embedding_dimensions s));
     rerankerModel := or_blank (reranker_model s);
     rerankerApiKey := or_blank (reranker_api_key s) |}.

(** A stored empty string reads back as NULL. *)
Definition blank_to_null (s : option string) : option string :=
  match s with
  | Some x => or_null x
  | None => None
  end.

Definition blanks_to_null (s : GlobalSettings) : GlobalSettings :=
  {| llm_model := blank_to_null (llm_model s);
     llm_base_url := blank_to_null (llm_base_url s);
     llm_api_key := blank_to_null (llm_api_key s);
     embedding_model := blank_to_null (embedding_model s);
     embedding_base_url := blank_to_null (embedding_base_url s);
     embedding_api_key := blank_to_null (embedding_api_key s);
     embedding_dimensions := embedding_dimensions s;
     reranker_model := blank_to_null (reranker_model s);
     reranker_api_key := blank_to_null (reranker_api_key s) |}.

(** ** [DocumentList.formatFileSize] *)

(** The integer [n] with [n / 10] nearest to [num / den], the larger one
    on a tie, for a non-negative quotient: the digits of
    [(num / den).toFixed(1)]. *)
Definition tenths (num den : Z) : Z := (20 * num + den) / (2 * den).

(** [n] tenths written with one decimal. *)
Definition show_tenths (n : Z) : string :=
  (Z_toString (n / 10) ++ "." ++ String (digit_char (n mod 10)) "")%string.

(** [formatFileSize(bytes)] for an integer number of bytes. *)
Definition formatFileSize (bytes : Z) : string :=
  if bytes <? 1024 then (Z_toString bytes ++ " B")%string
  else if bytes <? 1024 * 1024
  then (show_tenths (tenths bytes 1024) ++ " KB")%string
  else (show_tenths (tenths bytes (1024 * 1024)) ++ " MB")%string.

(* ================================================================== *)
(** * More sample data *)
(* ================================================================== *)

Module MoreSamples.

Definition alice : AuthUser := {| u_id := 1%N; u_email := Some "alice@x.org" |}.
Definition tester : AuthUser :=
  {| u_id := 2%N; u_email := Some "test@user.com" |}.
Definition nobody : AuthUser := {| u_id := 3%N; u_email := None |}.

Definition doc_b : Document :=
  {| d_id := 11%N; d_user_id := 1%N; d_filename := "b.md";
     d_file_type := ".md"; d_file_size := 7; d_storage_path := "1/b.md";
     d_status := pending; d_error_message := None;
     d_chunk_count := Some 0; d_metadata := None;
     d_content_hash := None |}.

(** A world without a session. *)
Definition signed_out : World :=
  {| session := None; server := Samples.server0; requests := [] |}.

(** A message of sixty characters. *)
Definition long_message : string :=
  "012345678901234567890123456789012345678901234567890123456789".

End MoreSamples.
(* ================================================================== *)
(** * Facts about the SQL layer *)
(* ================================================================== *)

Section OrderByFacts.
Variable A : Type.
Variable le : A -> A -> bool.

Lemma insert_row_perm x l : Permutation (x :: l) (insert_row le x l).
Proof.
  induction l as [|y l IH]; simpl; [reflexivity|].
  destruct (le x y); [reflexivity|].
  rewrite perm_swap. now apply perm_skip.
Qed.

Lemma order_by_perm l : Permutation l (order_by le l).
Proof.
  induction l as [|x l IH]; simpl; [constructor|].
  rewrite <- insert_row_perm. now apply perm_skip.
Qed.

Lemma order_by_In x l : In x (order_by le l) <-> In x l.
Proof.
  split; apply Permutation_in;
    [apply Permutation_sym|]; apply order_by_perm.
Qed.

Hypothesis le_total : forall a b, le a b = true \/ le b a = true.
Hypothesis le_trans :
  forall a b c, le a b = true -> le b c = true -> le a c = true.

Lemma insert_row_sorted x l :
  StronglySorted (fun a b => le a b = true) l ->
  StronglySorted (fun a b => le a b = true) (insert_row le x l).
Proof.
  induction 1 as [|y l Hs IH Hy]; simpl.
  - repeat constructor.
  - destruct (le x y) eqn:E.
    + constructor; [now constructor|].
      constructor; [exact E|].
      rewrite Forall_forall in *. eauto.
    + constructor; [exact IH|].
      rewrite Forall_forall in *. intros z Hz.
      apply (Permutation_in _ (Permutation_sym (insert_row_perm x l))) in Hz.
      destruct Hz as [<-|Hz]; [|now apply Hy].
      destruct (le_total x y) as [C|C]; congruence.
Qed.

Lemma order_by_sorted l :
  StronglySorted (fun a b => le a b = true) (order_by le l).
Proof.
  induction l; simpl; [constructor|now apply insert_row_sorted].
Qed.
End OrderByFacts.

Lemma asc_nulls_last_total a b :
  asc_nulls_last a b = true \/ asc_nulls_last b a = true.
Proof.
  destruct a as [x|], b as [y|]; simpl; auto.
  destruct (Qlt_le_dec y x) as [H|H].
  - right. apply Qle_bool_iff. now apply Qlt_le_weak.
  - left. now apply Qle_bool_iff.
Qed.

Lemma asc_nulls_last_trans a b c :
  asc_nulls_last a b = true -> asc_nulls_last b c = true ->
  asc_nulls_last a c = true.
Proof.
  destruct a as [x|], b as [y|], c as [z|]; simpl; auto; try discriminate.
  rewrite !Qle_bool_iff. apply Qle_trans.
Qed.


Lemma order_by_key_desc_sorted {A} (key : A -> option Q) (l : list A) :
  StronglySorted (fun a b => desc_nulls_first (key a) (key b) = true)
    (order_by (fun a b => desc_nulls_first (key a) (key b)) l).
Proof.
  apply order_by_sorted.
  - intros a b. unfold desc_nulls_first. apply asc_nulls_last_total.
  - intros a b c H1 H2. unfold desc_nulls_first in *.
    eapply asc_nulls_last_trans; eassumption.
Qed.

Lemma In_firstn {A} (x : A) n l : In x (firstn n l) -> In x l.
Proof.
  revert l; induction n as [|n IH]; intros [|y l]; simpl; try tauto.
  intros [->|H]; auto.
Qed.

Lemma StronglySorted_firstn {A} (R : A -> A -> Prop) n l :
  StronglySorted R l -> StronglySorted R (firstn n l).
Proof.
  intros H; revert n; induction H as [|x l Hs IH Hx]; intros [|n]; simpl;
    try constructor; auto.
  rewrite Forall_forall in *. intros y Hy. apply Hx. eapply In_firstn; eauto.
Qed.

Lemma StronglySorted_map {A B} (f : A -> B) (R : B -> B -> Prop) l :
  StronglySorted (fun a b => R (f a) (f b)) l -> StronglySorted R (map f l).
Proof.
  induction 1 as [|x l Hs IH Hx]; simpl; constructor; auto.
  rewrite Forall_forall in *. intros y Hy.
  apply in_map_iff in Hy as (a & <- & Ha). auto.
Qed.

Lemma StronglySorted_weaken_In {A} (R R' : A -> A -> Prop) l :
  (forall a b, In a l -> In b l -> R a b -> R' a b) ->
  StronglySorted R l -> StronglySorted R' l.
Proof.
  intros HR H; induction H as [|x l Hs IH Hx]; constructor.
  - apply IH. intros a b Ha Hb. apply HR; now right.
  - rewrite Forall_forall in *. intros y Hy.
    apply HR; [now left|now right|auto].
Qed.

Lemma limit_some_ok {A} (k : Z) (rows out : list A) :
  limit (Some k) rows = Ok out ->
  0 <= k /\ out = firstn (Z.to_nat k) rows.
Proof.
  unfold limit. destruct (k <? 0) eqn:E; [discriminate|].
  intros [= <-]. apply Z.ltb_ge in E. auto.
Qed.

Lemma limit_In {A} (n : option Z) (rows out : list A) x :
  limit n rows = Ok out -> In x out -> In x rows.
Proof.
  destruct n as [k|]; simpl.
  - destruct (k <? 0); [discriminate|]. intros [= <-]. apply In_firstn.
  - now intros [= <-].
Qed.

Lemma where_keeps_true b : where_keeps b = true <-> b = Some true.
Proof. destruct b as [[|]|]; simpl; split; congruence. Qed.

Lemma sql_and_true a b :
  sql_and a b = Some true <-> a = Some true /\ b = Some true.
Proof.
  destruct a as [[|]|], b as [[|]|]; simpl; split;
    solve [congruence | intros [? ?]; congruence | auto].
Qed.

(* ================================================================== *)
(** * Retrieval: threshold, order, limit, filters, owner scope *)
(* ================================================================== *)

Section RetrievalFacts.
Context {pg : PgOps}.

Lemma owner_is_true o c :
  owner_is o c = Some true <-> o = Some (c_user_id c).
Proof.
  unfold owner_is, strict2. destruct o as [u|]; [|split; discriminate].
  split.
  - intros [= H]. apply N.eqb_eq in H. now subst.
  - intros [= ->]. now rewrite N.eqb_refl.
Qed.

Lemma metadata_ok_filter fl c :
  metadata_ok (Some fl) c = Some true <->
  exists m, c_metadata c = Some m /\ jsonb_contains m fl = true.
Proof.
  unfold metadata_ok, strict2, sql_is_null, sql_or.
  destruct (c_metadata c) as [m|].
  - destruct (jsonb_contains m fl) eqn:E; split.
    + intros _. now exists m.
    + reflexivity.
    + discriminate.
    + intros (m' & [= <-] & H). congruence.
  - split; [discriminate|]. intros (m & H & _). discriminate.
Qed.

Lemma metadata_ok_null c : metadata_ok None c = Some true.
Proof.
  unfold metadata_ok, sql_is_null, sql_or.
  now destruct (strict2 jsonb_contains (c_metadata c) None) as [[|]|].
Qed.



Lemma keyword_where_keeps tsq o f c :
  where_keeps (keyword_where tsq o f c) = true <->
  o = Some (c_user_id c)
  /\ matches tsq c = Some true
  /\ metadata_ok f c = Some true.
Proof.
  unfold keyword_where.
  rewrite where_keeps_true, !sql_and_true, owner_is_true. tauto.
Qed.

(** Every row [match_chunks] returns is the projection of a chunk of the
    table that passes the WHERE clause. *)
Lemma match_chunks_row q t n o f tbl rows r :
  match_chunks q t n o f tbl = Ok rows -> In r rows ->
  exists c, In c tbl /\ r = match_select q c
            /\ where_keeps (match_where q t o f c) = true.
Proof.
  unfold match_chunks. intros H Hr.
  apply (limit_In _ _ _ _ H) in Hr.
  apply in_map_iff in Hr as (c & <- & Hc).
  apply order_by_In, filter_In in Hc as [Hc Hw]. eauto.
Qed.

Lemma match_where_parts q t o f c :
  where_keeps (match_where q t o f c) = true ->
  owner_is o c = Some true /\ metadata_ok f c = Some true.
Proof.
  unfold match_where. rewrite where_keeps_true, !sql_and_true. tauto.
Qed.

(** Likewise for [keyword_search_chunks], whose parsed query is then
    neither NULL nor empty. *)
Lemma keyword_search_row p_query n o f tbl rows r :
  keyword_search_chunks p_query n o f tbl = Ok rows -> In r rows ->
  exists query c,
    p_query = Some query /\ websearch_to_tsquery query <> []
    /\ In c tbl
    /\ r = keyword_select (Some (websearch_to_tsquery query)) c
    /\ where_keeps (keyword_where (Some (websearch_to_tsquery query)) o f c)
       = true.
Proof.
  unfold keyword_search_chunks. intros H Hr.
  destruct p_query as [query|]; simpl in H.
  - destruct (websearch_to_tsquery query) as [|i tsq] eqn:E; simpl in H.
    + injection H as <-. destruct Hr.
    + apply (limit_In _ _ _ _ H) in Hr.
      apply in_map_iff in Hr as (c & <- & Hc).
      apply order_by_In, filter_In in Hc as [Hc Hw].
      exists query, c. rewrite E. repeat split; auto. discriminate.
  - injection H as <-. destruct Hr.
Qed.

Lemma filter_absorb {A} (p q : A -> bool) l :
  (forall x, p x = true -> q x = true) ->
  filter p (filter q l) = filter p l.
Proof.
  intros Hpq. induction l as [|x l IH]; simpl; [reflexivity|].
  destruct (q x) eqn:Q; simpl.
  - now rewrite IH.
  - destruct (p x) eqn:P; [|exact IH].
    apply Hpq in P. congruence.
Qed.

End RetrievalFacts.

Section RetrievalClaims.
Context {pg : PgOps}.



(** C2. A query whose parse is NULL or has no tokens makes
    [keyword_search_chunks] return the empty set, whatever the owner, the
    count (even a negative one) and the metadata filter; a query with
    tokens returns (or raises, only for a negative count) and every
    returned row comes from a chunk whose search vector matches the parsed
    query. *)
Theorem keyword_search_tokens
    (p_query : option string) (n : option Z) (o : option uuid)
    (f : option jsonb) (tbl : list Chunk) :
  (where_keeps (no_tokens (option_map websearch_to_tsquery p_query)) = true ->
   keyword_search_chunks p_query n o f tbl = Ok [])
  /\
  (where_keeps (no_tokens (option_map websearch_to_tsquery p_query)) = false ->
   match keyword_search_chunks p_query n o f tbl with
   | Ok rows =>
       forall r, In r rows ->
         exists query c v,
           p_query = Some query /\ In c tbl
           /\ r = keyword_select (Some (websearch_to_tsquery query)) c
           /\ c_search_vector c = Some v
           /\ ts_match v (websearch_to_tsquery query) = true
   | Err _ => exists k, n = Some k /\ k < 0
   end).
Proof.
  split.
  - intros H. unfold keyword_search_chunks. now rewrite H.
  - intros H.
    destruct (keyword_search_chunks p_query n o f tbl) as [rows|msg] eqn:E.
    + intros r Hr.
      destruct (keyword_search_row _ _ _ _ _ _ _ E Hr)
        as (query & c & -> & _ & Hc & -> & Hw).
      apply keyword_where_keeps in Hw as (_ & Hm & _).
      unfold matches, strict2 in Hm.
      destruct (c_search_vector c) as [v|] eqn:Ev; [|discriminate].
      injection Hm as Hm. exists query, c, v. auto.
    + unfold keyword_search_chunks in E. rewrite H in E.
      destruct n as [k|]; simpl in E; [|discriminate].
      destruct (k <? 0) eqn:Hk; [|discriminate].
      exists k. split; [reflexivity|now apply Z.ltb_lt].
Qed.

Lemma keyword_where_parts tsq o f c :
  where_keeps (keyword_where tsq o f c) = true ->
  owner_is o c = Some true /\ metadata_ok f c = Some true.
Proof.
  unfold keyword_where. rewrite where_keeps_true, !sql_and_true. tauto.
Qed.

Lemma match_where_null_filter q t o c :
  match_where q t o None c = match_where4 q t o c.
Proof.
  unfold match_where, match_where4. rewrite metadata_ok_null.
  now destruct (sql_and (owner_is o c) _) as [[|]|].
Qed.

(** C3. With a non-null filter [fl], every row of [match_chunks] and every
    row of [keyword_search_chunks] carries metadata that contains [fl]
    (the same containment test on both paths).  With a NULL filter
    [match_chunks] is the function without the metadata condition, and
    on both paths every chunk of the owner that passes the other
    conditions is returned when no count cuts the result, whatever its
    metadata. *)
Theorem metadata_filter_on_both_paths
    (q : option vector) (t : option Q) (n nk : option Z) (o : option uuid)
    (p_query : option string) (tbl : list Chunk) :
  (forall fl rows r,
      match_chunks q t n o (Some fl) tbl = Ok rows -> In r rows ->
      exists m, m_metadata r = Some m /\ jsonb_contains m fl = true)
  /\
  (forall fl rows r,
      keyword_search_chunks p_query nk o (Some fl) tbl = Ok rows -> In r rows ->
      exists m, k_metadata r = Some m /\ jsonb_contains m fl = true)
  /\
  match_chunks q t n o None tbl = match_chunks4 q t n o tbl
  /\
  (forall c, In c tbl ->
      where_keeps (match_where4 q t o c) = true ->
      exists rows, match_chunks q t None o None tbl = Ok rows
                   /\ In (match_select q c) rows)
  /\
  (forall query c, p_query = Some query -> In c tbl ->
      websearch_to_tsquery query <> [] ->
      owner_is o c = Some true ->
      matches (Some (websearch_to_tsquery query)) c = Some true ->
      exists rows, keyword_search_chunks p_query None o None tbl = Ok rows
                   /\ In (keyword_select (Some (websearch_to_tsquery query)) c)
                         rows).
Proof.
  repeat split.
  - intros fl rows r E Hr.
    destruct (match_chunks_row _ _ _ _ _ _ _ _ E Hr) as (c & _ & -> & Hw).
    apply match_where_parts in Hw as [_ Hm].
    now apply metadata_ok_filter in Hm.
  - intros fl rows r E Hr.
    destruct (keyword_search_row _ _ _ _ _ _ _ E Hr)
      as (query & c & _ & _ & _ & -> & Hw).
    apply keyword_where_parts in Hw as [_ Hm].
    now apply metadata_ok_filter in Hm.
  - unfold match_chunks, match_chunks4. do 3 f_equal.
    apply filter_ext. intros c. now rewrite match_where_null_filter.
  - intros c Hc Hw. unfold match_chunks; simpl. eexists; split; [reflexivity|].
    apply in_map, order_by_In, filter_In. split; [exact Hc|].
    now rewrite match_where_null_filter.
  - intros query c -> Hc Hq Ho Hm. unfold keyword_search_chunks; simpl.
    destruct (websearch_to_tsquery query) as [|i tsq] eqn:E; [congruence|].
    simpl. eexists; split; [reflexivity|].
    apply in_map, order_by_In, filter_In. split; [exact Hc|].
    apply keyword_where_keeps. apply owner_is_true in Ho.
    repeat split; auto using metadata_ok_null.
Qed.

Lemma owner_test o c :
  owner_is (Some o) c = Some true -> (c_user_id c =? o)%N = true.
Proof.
  intros H. apply owner_is_true in H. injection H as ->. apply N.eqb_refl.
Qed.

(** C4. Every row returned for owner [o] by either function is the
    projection of a chunk of owner [o]; and on two tables that hold the
    same chunks of [o] (and any chunks of other owners) each function
    returns the same result. *)
Theorem retrieval_scoped_to_owner
    (q : option vector) (t : option Q) (n nk : option Z)
    (p_query : option string) (f : option jsonb) (o : uuid) :
  (forall tbl rows r,
      match_chunks q t n (Some o) f tbl = Ok rows -> In r rows ->
      exists c, In c tbl /\ c_user_id c = o /\ r = match_select q c)
  /\
  (forall tbl rows r,
      keyword_search_chunks p_query nk (Some o) f tbl = Ok rows -> In r rows ->
      exists c, In c tbl /\ c_user_id c = o
                /\ r = keyword_select (option_map websearch_to_tsquery p_query) c)
  /\
  (forall tbl1 tbl2,
      chunks_of_owner o tbl1 = chunks_of_owner o tbl2 ->
      match_chunks q t n (Some o) f tbl1 = match_chunks q t n (Some o) f tbl2
      /\ keyword_search_chunks p_query nk (Some o) f tbl1
         = keyword_search_chunks p_query nk (Some o) f tbl2).
Proof.
  repeat split.
  - intros tbl rows r E Hr.
    destruct (match_chunks_row _ _ _ _ _ _ _ _ E Hr) as (c & Hc & -> & Hw).
    apply match_where_parts in Hw as [Ho _].
    apply owner_test, N.eqb_eq in Ho. eauto.
  - intros tbl rows r E Hr.
    destruct (keyword_search_row _ _ _ _ _ _ _ E Hr)
      as (query & c & -> & _ & Hc & -> & Hw).
    apply keyword_where_parts in Hw as [Ho _].
    apply owner_test, N.eqb_eq in Ho. eauto.
  - unfold match_chunks.
    rewrite <- (filter_absorb _ (fun c => (c_user_id c =? o)%N) tbl1),
            <- (filter_absorb _ (fun c => (c_user_id c =? o)%N) tbl2).
    + unfold chunks_of_owner in H. now rewrite H.
    + intros c Hw. apply match_where_parts in Hw as [Ho _].
      now apply owner_test.
    + intros c Hw. apply match_where_parts in Hw as [Ho _].
      now apply owner_test.
  - unfold keyword_search_chunks.
    destruct (where_keeps (no_tokens _)); [reflexivity|].
    rewrite <- (filter_absorb _ (fun c => (c_user_id c =? o)%N) tbl1),
            <- (filter_absorb _ (fun c => (c_user_id c =? o)%N) tbl2).
    + unfold chunks_of_owner in H. now rewrite H.
    + intros c Hw. apply keyword_where_parts in Hw as [Ho _].
      now apply owner_test.
    + intros c Hw. apply keyword_where_parts in Hw as [Ho _].
      now apply owner_test.
Qed.

End RetrievalClaims.

(* ================================================================== *)
(** * Storage: chunks never outlive their document *)
(* ================================================================== *)

Section DmlFacts.
Context {pg : PgOps}.

Lemma has_document_In db id :
  has_document db id = true <-> exists d, In d (documents db) /\ d_id d = id.
Proof.
  unfold has_document. rewrite existsb_exists.
  split; intros (d & Hd & E); exists d; split; auto; now apply N.eqb_eq.
Qed.

Lemma trigger_keeps_document c :
  c_document_id (chunks_search_vector_update c) = c_document_id c.
Proof. reflexivity. Qed.

(** One statement preserves referential integrity. *)
Lemma exec_preserves_no_orphans s db db' :
  no_orphan_chunks db -> exec s db = Ok db' -> no_orphan_chunks db'.
Proof.
  intros Inv E c Hc. unfold chunk_has_document.
  destruct s as [u|u|d|id p|id new_id|id|c0|id content|id doc|id|id];
    simpl in E.
  - destruct (has_user db u); [discriminate|]. injection E as <-.
    now apply Inv.
  - injection E as <-. simpl in *.
    apply filter_In in Hc as [_ Hc]. apply andb_true_iff in Hc as [_ Hc].
    apply existsb_exists in Hc as (d & Hd & E). apply N.eqb_eq in E. eauto.
  - destruct (has_document db (d_id d)); [discriminate|].
    destruct (negb (has_user db (d_user_id d))); [discriminate|].
    injection E as <-. simpl in *.
    destruct (Inv c Hc) as (d0 & Hd0 & E0).
    exists d0. split; [apply in_or_app; now left|exact E0].
  - injection E as <-. simpl in *.
    destruct (Inv c Hc) as (d0 & Hd0 & E0).
    exists (if (d_id d0 =? id)%N then patch_document p d0 else d0). split.
    + apply in_map_iff. now exists d0.
    + now destruct (d_id d0 =? id)%N.
  - destruct (existsb (fun c1 => (c_document_id c1 =? id)%N) (chunks db))
      eqn:Href; [discriminate|].
    destruct (has_document db new_id); [discriminate|].
    injection E as <-. simpl in *.
    destruct (Inv c Hc) as (d0 & Hd0 & E0).
    exists d0. split; [|exact E0].
    apply in_map_iff. exists d0. split; [|exact Hd0].
    destruct (d_id d0 =? id)%N eqn:Hid; [|reflexivity].
    exfalso. apply N.eqb_eq in Hid.
    assert (Hex : existsb (fun c1 => (c_document_id c1 =? id)%N) (chunks db)
                  = true).
    { apply existsb_exists. exists c. split; [exact Hc|].
      apply N.eqb_eq. congruence. }
    congruence.
  - injection E as <-. simpl in *.
    apply filter_In in Hc as [Hc Hne].
    destruct (Inv c Hc) as (d0 & Hd0 & E0).
    exists d0. split; [|exact E0].
    apply filter_In. split; [exact Hd0|]. now rewrite E0.
  - destruct (has_chunk db (c_id c0)); [discriminate|].
    destruct (has_document db (c_document_id c0)) eqn:Hdoc;
      simpl in E; [|discriminate].
    destruct (negb (has_user db (c_user_id c0))); [discriminate|].
    injection E as <-. simpl in *.
    apply in_app_or in Hc as [Hc|[<-|[]]].
    + now apply Inv.
    + rewrite trigger_keeps_document. now apply has_document_In.
  - injection E as <-. simpl in *.
    apply in_map_iff in Hc as (c1 & <- & Hc1).
    destruct (Inv c1 Hc1) as (d0 & Hd0 & E0).
    exists d0. split; [exact Hd0|].
    now destruct (c_id c1 =? id)%N.
  - destruct (has_document db doc) eqn:Hdoc; simpl in E; [|discriminate].
    injection E as <-. simpl in *.
    apply in_map_iff in Hc as (c1 & <- & Hc1).
    destruct (c_id c1 =? id)%N.
    + simpl. now apply has_document_In.
    + now apply Inv.
  - injection E as <-. simpl in *.
    apply filter_In in Hc as [Hc _]. now apply Inv.
  - injection E as <-. simpl in *.
    apply filter_In in Hc as [Hc _]. now apply Inv.
Qed.

(** C6. Deleting document [d] succeeds and leaves no chunk whose document
    reference is [d] (nor [d] itself); and in every state reachable from
    the empty database every chunk's document reference names an existing
    document. *)
Theorem chunks_never_outlive_document :
  (forall db d,
      exists db', exec (DeleteDocument d) db = Ok db'
                  /\ chunks_of db' d = []
                  /\ (forall c, In c (chunks db') -> c_document_id c <> d)
                  /\ has_document db' d = false)
  /\ (forall db, reachable db -> no_orphan_chunks db).
Proof.
  split.
  - intros db d. exists (delete_document d db). split; [reflexivity|].
    assert (Hno : forall c, In c (chunks (delete_document d db)) ->
                            c_document_id c <> d).
    { intros c Hc. simpl in Hc. apply filter_In in Hc as [_ Hc].
      apply negb_true_iff, N.eqb_neq in Hc. exact Hc. }
    split; [|split; [exact Hno|]].
    + unfold chunks_of.
      destruct (filter _ (chunks (delete_document d db))) as [|c l] eqn:E;
        [reflexivity|].
      assert (Hc : In c (c :: l)) by now left.
      rewrite <- E in Hc. apply filter_In in Hc as [Hc Heq].
      apply N.eqb_eq in Heq. now apply Hno in Hc.
    + unfold has_document. simpl.
      destruct (existsb _ _) eqn:E; [|reflexivity].
      apply existsb_exists in E as (x & Hx & Heq).
      apply filter_In in Hx as [_ Hx]. rewrite Heq in Hx. discriminate.
  - induction 1 as [|s db db' _ IH E].
    + intros c [].
    + eapply exec_preserves_no_orphans; eassumption.
Qed.

End DmlFacts.

(* ================================================================== *)
(** * Upload: validation and unchanged files *)
(* ================================================================== *)

Section UploadFacts.
Context {pg : PgOps}.
Variable fingerprint : string -> string.









End UploadFacts.

(* ================================================================== *)
(** * Settings: embedding fields are locked while chunks exist *)
(* ================================================================== *)

Lemma carries_none u :
  carries_embedding_field u = false ->
  embedding_model u = None /\ embedding_base_url u = None
  /\ embedding_api_key u = None /\ embedding_dimensions u = None.
Proof.
  unfold carries_embedding_field, is_some.
  destruct (embedding_model u), (embedding_base_url u),
    (embedding_api_key u), (embedding_dimensions u); simpl;
    intros; try discriminate; auto.
Qed.

(** C7. While at least one chunk exists, an update that carries any
    embedding-related field (model, base URL, API key, dimensionality) is
    rejected with a [ConsistencyError] and changes nothing, and whatever
    the update carries the stored embedding fields stay as they were; with
    no chunk anywhere the same update is accepted and stored.  On the
    settings page a rejected save ends with the error shown. *)
Theorem embedding_settings_locked (u : GlobalSettingsUpdate) (sv : Server) :
  (any_chunk (db sv) = true -> carries_embedding_field u = true ->
   exists detail,
     put_settings u sv = (Rejected ConsistencyError detail, sv))
  /\ (any_chunk (db sv) = true ->
      embedding_fields (settings (snd (put_settings u sv)))
      = embedding_fields (settings sv))
  /\ (any_chunk (db sv) = false ->
      exists body sv',
        put_settings u sv = (Accepted body, sv')
        /\ settings sv' = apply_update u (settings sv)
        /\ view body = settings sv'
        /\ db sv' = db sv)
  /\ (forall f w who,
      session w = Some who -> server w = sv -> build_update f = u ->
      any_chunk (db sv) = true -> carries_embedding_field u = true ->
      exists msg w',
        handleSave f w = ({| saving := false; save_error := Some msg;
                             success := false |}, w')
        /\ server w' = sv).
Proof.
  repeat split.
  - intros Hc Hu. unfold put_settings. rewrite Hc, Hu. simpl. eauto.
  - intros Hc. unfold put_settings. rewrite Hc. simpl.
    destruct (carries_embedding_field u) eqn:Hu; simpl; [reflexivity|].
    apply carries_none in Hu as (H1 & H2 & H3 & H4).
    unfold embedding_fields, apply_update; simpl.
    now rewrite H1, H2, H3, H4.
  - intros Hc. unfold put_settings. rewrite Hc. simpl.
    do 2 eexists. split; [reflexivity|]. simpl. auto.
  - intros f w who Hs Hsv Hb Hc Hu.
    unfold handleSave, updateSettings. rewrite Hs, Hb, Hsv.
    unfold put_settings. rewrite Hc, Hu. simpl.
    do 2 eexists. split; [reflexivity|]. reflexivity.
Qed.

(* ================================================================== *)
(** * The event-stream reader: lines, chunking, callbacks *)
(* ================================================================== *)

Lemma append_empty_r s : (s ++ "")%string = s.
Proof. induction s; simpl; congruence. Qed.

Lemma append_assoc_str a b c : ((a ++ b) ++ c)%string = (a ++ (b ++ c))%string.
Proof. induction a; simpl; congruence. Qed.

Lemma pop_snoc {A} (l : list A) x : pop (l ++ [x]) = (Some x, l).
Proof. unfold pop. rewrite rev_app_distr. simpl. now rewrite rev_involutive. Qed.

Lemma split_snoc sep s : exists init last, split sep s = init ++ [last].
Proof.
  induction s as [|c s (init & last & IH)]; simpl.
  - now exists [], "".
  - destruct (Ascii.eqb c sep).
    + exists ("" :: init), last. now rewrite IH.
    + rewrite IH. destruct init as [|p ps]; simpl.
      * now exists [], (String c last).
      * now exists (String c p :: ps), last.
Qed.

(** Splitting a concatenation: the complete pieces of the first part stay,
    and its last piece is continued by the second part. *)
Lemma split_app sep a b : forall init last,
  split sep a = init ++ [last] ->
  split sep (a ++ b) = init ++ split sep (last ++ b).
Proof.
  induction a as [|c a IH]; intros init last H; simpl in *.
  - destruct init as [|x [|y l]]; simpl in H; try discriminate.
    now injection H as <-.
  - destruct (split_snoc sep a) as (i' & l' & Ha).
    specialize (IH i' l' Ha). rewrite IH.
    destruct (Ascii.eqb c sep) eqn:Ec.
    + rewrite Ha in H. change ("" :: i' ++ [l']) with (("" :: i') ++ [l']) in H.
      apply app_inj_tail in H as [<- <-]. reflexivity.
    + rewrite Ha in H. destruct i' as [|p ps]; simpl in *.
      * change [String c l'] with ([] ++ [String c l']) in H.
        apply app_inj_tail in H as [<- <-]. simpl. now rewrite Ec.
      * change (String c p :: ps ++ [l']) with ((String c p :: ps) ++ [l']) in H.
        apply app_inj_tail in H as [<- <-]. reflexivity.
Qed.

Lemma split_pieces_clean sep s :
  Forall (fun p => contains_char sep p = false) (split sep s).
Proof.
  induction s as [|c s IH]; simpl.
  - now repeat constructor.
  - destruct (Ascii.eqb c sep) eqn:Ec.
    + now constructor.
    + destruct (split sep s) as [|p ps].
      * repeat constructor. simpl. now rewrite Ec.
      * inversion IH; subst. constructor; [|assumption].
        simpl. now rewrite Ec.
Qed.

Lemma split_clean sep p : contains_char sep p = false -> split sep p = [p].
Proof.
  induction p as [|c p IH]; simpl; [reflexivity|].
  intros H. apply orb_false_iff in H as [Ec Hp].
  now rewrite Ec, (IH Hp).
Qed.

Lemma split_clean_cut sep p t :
  contains_char sep p = false ->
  split sep (p ++ String sep t) = p :: split sep t.
Proof.
  induction p as [|c p IH]; simpl.
  - intros _. now rewrite Ascii.eqb_refl.
  - intros H. apply orb_false_iff in H as [Ec Hp].
    now rewrite Ec, (IH Hp).
Qed.

Lemma complete_pending text init last :
  split LF text = init ++ [last] ->
  complete_lines text = init /\ pending_text text = last.
Proof.
  intros H. unfold complete_lines, pending_text. now rewrite H, pop_snoc.
Qed.

Section SseFacts.
Context {js : Platform}.

(** Decoding is byte by byte: decoding a concatenation is decoding its
    parts in turn. *)
Lemma decode_app d a b :
  decode d (a ++ b)
  = let (d1, s1) := decode d a in
    let (d2, s2) := decode d1 b in
    (d2, (s1 ++ s2)%string).
Proof.
  revert d. induction a as [|x a IH]; intros d; simpl.
  - now destruct (decode d b).
  - destruct (decode_byte d x) as [d1 s1]. rewrite IH.
    destruct (decode d1 a) as [d2 s2], (decode d2 b) as [d3 s3].
    now rewrite append_assoc_str.
Qed.

Lemma decoded_text_cons d value rest :
  decoded_text d (value :: rest)
  = (snd (decode d value) ++ decoded_text (fst (decode d value)) rest)%string.
Proof.
  unfold decoded_text. simpl. rewrite decode_app.
  destruct (decode d value) as [d1 s1]. simpl.
  now destruct (decode d1 (List.concat rest)).
Qed.

(** The loop dispatches exactly the complete lines of the text read so
    far and keeps what follows the last line feed. *)
Lemma read_loop_lines reads : forall d buffer,
  contains_char LF buffer = false ->
  read_loop reads d buffer
  = (flat_map dispatch_line (complete_lines (buffer ++ decoded_text d reads)),
     pending_text (buffer ++ decoded_text d reads)).
Proof.
  induction reads as [|value rest IH]; intros d buffer Hb.
  - unfold decoded_text. simpl. rewrite append_empty_r.
    destruct (complete_pending buffer [] buffer (split_clean LF buffer Hb))
      as [-> ->].
    reflexivity.
  - rewrite decoded_text_cons. simpl.
    destruct (decode d value) as [d' chunk]. simpl.
    destruct (split_snoc LF (buffer ++ chunk)) as (init & last & Hs).
    rewrite Hs, pop_snoc. simpl.
    assert (Hl : contains_char LF last = false).
    { pose proof (split_pieces_clean LF (buffer ++ chunk)) as F.
      rewrite Hs in F. rewrite Forall_forall in F.
      apply F, in_or_app. right. now left. }
    rewrite (IH d' last Hl).
    rewrite <- append_assoc_str.
    pose proof (split_app LF (buffer ++ chunk) (decoded_text d' rest)
                  init last Hs) as Happ.
    destruct (split_snoc LF (last ++ decoded_text d' rest)) as (i2 & l2 & H2).
    rewrite H2, app_assoc in Happ.
    destruct (complete_pending _ _ _ Happ) as [-> ->].
    destruct (complete_pending _ _ _ H2) as [-> ->].
    now rewrite flat_map_app.
Qed.

Lemma calls_of_lines reads :
  calls_of reads = flat_map dispatch_line (complete_lines (stream_text reads)).
Proof.
  unfold calls_of, sendMessage, stream_text. simpl.
  now rewrite (read_loop_lines reads new_decoder "" eq_refl).
Qed.

(** C10. The callbacks of a stream depend only on the bytes that the read
    chunks concatenate to, not on where the chunks were cut: they are the
    dispatch of the complete lines of the decoded text.  What follows the
    last line feed stays in the buffer: it changes no callback and is
    still buffered when the stream ends; a stream without any line feed
    invokes nothing. *)
Theorem read_loop_chunking_invariant :
  (forall reads1 reads2,
      List.concat reads1 = List.concat reads2 ->
      calls_of reads1 = calls_of reads2)
  /\ (forall reads text tail,
      stream_text reads = (text ++ String LF tail)%string ->
      contains_char LF tail = false ->
      read_loop reads new_decoder ""
      = (flat_map dispatch_line (complete_lines (text ++ String LF "")), tail))
  /\ (forall reads,
      contains_char LF (stream_text reads) = false ->
      read_loop reads new_decoder "" = ([], stream_text reads)).
Proof.
  split; [|split].
  - intros reads1 reads2 H. rewrite !calls_of_lines.
    unfold stream_text, decoded_text. now rewrite H.
  - intros reads text tail Ht Htail.
    rewrite (read_loop_lines reads new_decoder "" eq_refl). simpl.
    fold (stream_text reads). rewrite Ht.
    destruct (split_snoc LF text) as (init & last & Hs).
    pose proof (split_app LF text (String LF tail) init last Hs) as H1.
    pose proof (split_app LF text (String LF "") init last Hs) as H2.
    assert (Hl : contains_char LF last = false).
    { pose proof (split_pieces_clean LF text) as F.
      rewrite Hs in F. rewrite Forall_forall in F.
      apply F, in_or_app. right. now left. }
    assert (Hcut : forall t, contains_char LF t = false ->
                   split LF (last ++ String LF t) = [last] ++ [t]).
    { intros t Hc.
      now rewrite (split_clean_cut LF last t Hl), (split_clean LF t Hc). }
    rewrite (Hcut tail Htail), app_assoc in H1.
    rewrite (Hcut "" eq_refl), app_assoc in H2.
    destruct (complete_pending _ _ _ H1) as [-> ->].
    destruct (complete_pending _ _ _ H2) as [-> _].
    reflexivity.
  - intros reads Hc.
    rewrite (read_loop_lines reads new_decoder "" eq_refl). simpl.
    fold (stream_text reads).
    destruct (complete_pending _ [] _ (split_clean LF _ Hc)) as [-> ->].
    reflexivity.
Qed.








End SseFacts.

(* ================================================================== *)
(** * Retrieval: ranking, the best rows, NULL arguments, distinct rows *)
(* ================================================================== *)



Lemma NoDup_map_filter {A B} (f : A -> B) (p : A -> bool) l :
  NoDup (map f l) -> NoDup (map f (filter p l)).
Proof.
  induction l as [|x l IH]; simpl; [auto|].
  intros H. inversion H as [|? ? Hx Hl]; subst.
  destruct (p x); simpl; [|auto].
  constructor; [|auto].
  intros Hin. apply Hx. apply in_map_iff in Hin as (y & E & Hy).
  apply filter_In in Hy as [Hy _]. apply in_map_iff. eauto.
Qed.

Lemma NoDup_firstn_keep {A} n (l : list A) : NoDup l -> NoDup (firstn n l).
Proof.
  intros H; revert n; induction H as [|x l Hx Hl IH]; intros [|n]; simpl;
    try constructor; auto.
  intros Hin. apply Hx. eapply In_firstn; eauto.
Qed.

Section RetrievalMore.
Context {pg : PgOps}.

Lemma keyword_where_rank tsq o f c :
  where_keeps (keyword_where tsq o f c) = true ->
  exists v query, c_search_vector c = Some v /\ tsq = Some query
                  /\ ts_match v query = true
                  /\ rank tsq c = Some (ts_rank_cd v query).
Proof.
  intros H. apply keyword_where_keeps in H as (_ & Hm & _).
  unfold matches, rank, strict2 in *.
  destruct (c_search_vector c) as [v|], tsq as [query|]; try discriminate.
  injection Hm as Hm. exists v, query. auto.
Qed.

(** X1. The rows of [keyword_search_chunks] are in order of decreasing
    rank, each rank being [ts_rank_cd] of the chunk's search vector, and
    with a count [n] there are at most [max 0 n] of them. *)
Theorem keyword_search_ranked_and_limited
    (p_query : option string) (n : Z) (o : option uuid) (f : option jsonb)
    (tbl : list Chunk) :
  match keyword_search_chunks p_query (Some n) o f tbl with
  | Ok rows =>
      StronglySorted at_least_as_ranked rows
      /\ (forall r, In r rows ->
            exists c v query,
              In c tbl /\ c_search_vector c = Some v
              /\ p_query = Some query
              /\ k_rank r = Some (ts_rank_cd v (websearch_to_tsquery query)))
      /\ Z.of_nat (List.length rows) <= Z.max 0 n
  | Err _ => n < 0
  end.
Proof.
  destruct (keyword_search_chunks p_query (Some n) o f tbl) as [rows|msg] eqn:E.
  - split; [|split].
    + unfold keyword_search_chunks in E.
      destruct (where_keeps (no_tokens _)); [injection E as <-; constructor|].
      apply limit_some_ok in E as [_ ->].
      apply StronglySorted_firstn, StronglySorted_map.
      eapply StronglySorted_weaken_In;
        [|apply (order_by_key_desc_sorted
                   (rank (option_map websearch_to_tsquery p_query)))].
      intros a b Ha Hb Hab. simpl in Hab.
      apply order_by_In, filter_In in Ha as [_ Ha].
      apply order_by_In, filter_In in Hb as [_ Hb].
      apply keyword_where_rank in Ha as (va & qa & _ & _ & _ & Ra).
      apply keyword_where_rank in Hb as (vb & qb & _ & _ & _ & Rb).
      unfold at_least_as_ranked. simpl. rewrite Ra, Rb in *.
      unfold desc_nulls_first in Hab. simpl in Hab.
      apply Qle_bool_iff in Hab. eauto.
    + intros r Hr.
      destruct (keyword_search_row _ _ _ _ _ _ _ E Hr)
        as (query & c & -> & _ & Hc & -> & Hw).
      apply keyword_where_rank in Hw as (v & q' & Hv & [= <-] & _ & Rk).
      exists c, v, query. auto.
    + unfold keyword_search_chunks in E.
      destruct (where_keeps (no_tokens _)); [injection E as <-; simpl; lia|].
      apply limit_some_ok in E as [Hn ->].
      pose proof (firstn_le_length (Z.to_nat n)
        (map (keyword_select (option_map websearch_to_tsquery p_query))
           (order_by (by_rank_desc (option_map websearch_to_tsquery p_query))
              (filter (fun c => where_keeps
                         (keyword_where
                            (option_map websearch_to_tsquery p_query) o f c))
                 tbl)))).
      lia.
  - unfold keyword_search_chunks in E.
    destruct (where_keeps (no_tokens _)); [discriminate|].
    unfold limit in E. destruct (n <? 0) eqn:Hn; [now apply Z.ltb_lt|discriminate].
Qed.

Lemma match_where_embedding q t o f c :
  where_keeps (match_where q t o f c) = true ->
  exists e qe, c_embedding c = Some e /\ q = Some qe.
Proof.
  unfold match_where. rewrite where_keeps_true, !sql_and_true.
  intros [[_ H] _]. unfold similarity, distance, strict2 in H.
  destruct (c_embedding c) as [e|], q as [qe|]; try discriminate; eauto.
Qed.



Lemma match_where_null_owner q t f c :
  where_keeps (match_where q t None f c) = false.
Proof.
  destruct (where_keeps _) eqn:E; [|reflexivity].
  apply match_where_parts in E as [Ho _]. discriminate.
Qed.

Lemma match_where_null_threshold q o f c :
  where_keeps (match_where q None o f c) = false.
Proof.
  destruct (where_keeps _) eqn:E; [|reflexivity].
  unfold match_where in E. rewrite where_keeps_true, !sql_and_true in E.
  destruct E as [[_ H] _]. unfold strict2 in H.
  destruct (similarity q c); discriminate.
Qed.

Lemma match_where_null_query t o f c :
  where_keeps (match_where None t o f c) = false.
Proof.
  destruct (where_keeps _) eqn:E; [|reflexivity].
  apply match_where_embedding in E as (e & qe & _ & H). discriminate.
Qed.

Lemma keyword_where_null_owner tsq f c :
  where_keeps (keyword_where tsq None f c) = false.
Proof.
  destruct (where_keeps _) eqn:E; [|reflexivity].
  apply keyword_where_parts in E as [Ho _]. discriminate.
Qed.

Lemma filter_none {A} (p : A -> bool) l :
  (forall x, p x = false) -> filter p l = [].
Proof.
  intros H. induction l as [|x l IH]; simpl; [reflexivity|].
  now rewrite H.
Qed.

(** X3. A NULL owner, a NULL threshold or a NULL query embedding makes
    [match_chunks] answer as on an empty table, and a NULL owner does the
    same to [keyword_search_chunks]: no row of any user is returned. *)
Theorem retrieval_null_arguments
    (q : option vector) (t : option Q) (n : option Z) (o : option uuid)
    (f : option jsonb) (p_query : option string) (tbl : list Chunk) :
  match_chunks q t n None f tbl = match_chunks q t n None f []
  /\ match_chunks q None n o f tbl = match_chunks q None n o f []
  /\ match_chunks None t n o f tbl = match_chunks None t n o f []
  /\ keyword_search_chunks p_query n None f tbl
     = keyword_search_chunks p_query n None f []
  /\ (forall rows,
        match_chunks q t n None f tbl = Ok rows
        \/ match_chunks q None n o f tbl = Ok rows
        \/ match_chunks None t n o f tbl = Ok rows ->
        rows = [])
  /\ (forall rows,
        keyword_search_chunks p_query n None f tbl = Ok rows -> rows = []).
Proof.
  assert (H1 : match_chunks q t n None f tbl = match_chunks q t n None f []).
  { unfold match_chunks. rewrite filter_none; [reflexivity|].
    intros c. apply match_where_null_owner. }
  assert (H2 : match_chunks q None n o f tbl = match_chunks q None n o f []).
  { unfold match_chunks. rewrite filter_none; [reflexivity|].
    intros c. apply match_where_null_threshold. }
  assert (H3 : match_chunks None t n o f tbl = match_chunks None t n o f []).
  { unfold match_chunks. rewrite filter_none; [reflexivity|].
    intros c. apply match_where_null_query. }
  assert (H4 : keyword_search_chunks p_query n None f tbl
               = keyword_search_chunks p_query n None f []).
  { unfold keyword_search_chunks.
    destruct (where_keeps (no_tokens _)); [reflexivity|].
    rewrite filter_none; [reflexivity|].
    intros c. apply keyword_where_null_owner. }
  assert (He : forall A (rows : list A), limit n (@nil A) = Ok rows -> rows = []).
  { intros A rows H. unfold limit in H.
    destruct n as [k|]; [destruct (k <? 0)|];
      try rewrite firstn_nil in H; congruence. }
  repeat split; auto.
  - intros rows H. rewrite H1, H2, H3 in H.
    unfold match_chunks in H. simpl in H.
    destruct H as [H|[H|H]]; now apply He in H.
  - intros rows H. rewrite H4 in H.
    unfold keyword_search_chunks in H. simpl in H.
    destruct (where_keeps (no_tokens _)); [congruence|now apply He in H].
Qed.

(** X4. On a table whose chunk ids are distinct (the primary key), the
    rows returned by either function have distinct ids. *)
Theorem retrieval_rows_distinct
    (q : option vector) (t : option Q) (n nk : option Z) (o : option uuid)
    (f : option jsonb) (p_query : option string) (tbl : list Chunk) :
  NoDup (map c_id tbl) ->
  (forall rows, match_chunks q t n o f tbl = Ok rows ->
                NoDup (map m_id rows))
  /\ (forall rows, keyword_search_chunks p_query nk o f tbl = Ok rows ->
                   NoDup (map k_id rows)).
Proof.
  intros Hnd.
  assert (Hlim : forall A (g : A -> uuid) m l rows,
             limit m l = Ok rows -> NoDup (map g l) -> NoDup (map g rows)).
  { intros A g m l rows H Hl. unfold limit in H.
    destruct m as [k|]; [destruct (k <? 0); [discriminate|]|];
      injection H as <-; [|exact Hl].
    rewrite <- firstn_map. now apply NoDup_firstn_keep. }
  split; intros rows E.
  - unfold match_chunks in E. eapply Hlim; [exact E|].
    rewrite map_map. simpl.
    eapply Permutation_NoDup;
      [apply Permutation_map, order_by_perm|].
    now apply NoDup_map_filter.
  - unfold keyword_search_chunks in E.
    destruct (where_keeps (no_tokens _)); [injection E as <-; constructor|].
    eapply Hlim; [exact E|].
    rewrite map_map. simpl.
    eapply Permutation_NoDup;
      [apply Permutation_map, order_by_perm|].
    now apply NoDup_map_filter.
Qed.

End RetrievalMore.

(* ================================================================== *)
(** * Storage: keys, owners, what a deletion leaves, search vectors *)
(* ================================================================== *)

Lemma NoDup_snoc {A} (l : list A) x : NoDup l -> ~ In x l -> NoDup (l ++ [x]).
Proof.
  intros Hl Hx. apply (Permutation_NoDup (Permutation_cons_append l x)).
  now constructor.
Qed.

Lemma existsb_eqb_false (l : list N) x :
  existsb (N.eqb x) l = false -> ~ In x l.
Proof.
  intros H Hin.
  assert (E : existsb (N.eqb x) l = true).
  { apply existsb_exists. exists x. split; [exact Hin|apply N.eqb_refl]. }
  congruence.
Qed.

Lemma existsb_key_false {A} (key : A -> N) (l : list A) x :
  existsb (fun a => (key a =? x)%N) l = false -> ~ In x (map key l).
Proof.
  intros H Hin. apply in_map_iff in Hin as (a & E & Ha).
  assert (E' : existsb (fun a => (key a =? x)%N) l = true).
  { apply existsb_exists. exists a. split; [exact Ha|now apply N.eqb_eq]. }
  congruence.
Qed.

Lemma NoDup_rename (l : list N) old new :
  NoDup l -> ~ In new l ->
  NoDup (map (fun x => if (x =? old)%N then new else x) l).
Proof.
  induction 1 as [|x l Hx Hl IH]; simpl; intros Hnew; [constructor|].
  assert (Hin : forall z, In z (map (fun y => if (y =? old)%N then new else y) l) ->
                          (z = new /\ In old l) \/ (In z l /\ z <> old)).
  { intros z Hz. apply in_map_iff in Hz as (y & E & Hy).
    destruct (y =? old)%N eqn:Ey.
    - apply N.eqb_eq in Ey. subst. now left.
    - apply N.eqb_neq in Ey. subst. now right. }
  constructor.
  - intros C. apply Hin in C as [[E Hold]|[Hl' Hne]].
    + destruct (x =? old)%N eqn:Ex.
      * apply N.eqb_eq in Ex. subst. contradiction.
      * subst. apply Hnew. now left.
    + destruct (x =? old)%N eqn:Ex.
      * apply Hnew. now right.
      * contradiction.
  - apply IH. intros C. apply Hnew. now right.
Qed.

Section DmlMore.
Context {pg : PgOps}.

(** Primary keys: no two rows of a table share their key. *)
Lemma exec_keeps_keys_distinct s db db' :
  NoDup (users db) /\ NoDup (map d_id (documents db))
  /\ NoDup (map c_id (chunks db)) ->
  exec s db = Ok db' ->
  NoDup (users db') /\ NoDup (map d_id (documents db'))
  /\ NoDup (map c_id (chunks db')).
Proof.
  intros (Hu & Hd & Hc) E.
  destruct s as [u|u|d|id p|id new_id|id|c0|id content|id doc|id|id];
    simpl in E.
  - destruct (has_user db u) eqn:H; [discriminate|]. injection E as <-.
    simpl. repeat split; auto.
    apply NoDup_snoc; [exact Hu|now apply existsb_eqb_false].
  - injection E as <-. simpl. repeat split.
    + now apply NoDup_filter.
    + now apply NoDup_map_filter.
    + now apply NoDup_map_filter.
  - destruct (has_document db (d_id d)) eqn:H; [discriminate|].
    destruct (negb (has_user db (d_user_id d))); [discriminate|].
    injection E as <-. simpl. repeat split; auto.
    rewrite map_app. simpl.
    apply NoDup_snoc; [exact Hd|now apply existsb_key_false].
  - injection E as <-. simpl. repeat split; auto.
    rewrite map_map.
    erewrite map_ext; [exact Hd|].
    intros a. now destruct (d_id a =? id)%N.
  - destruct (existsb _ (chunks db)); [discriminate|].
    destruct (has_document db new_id) eqn:H; [discriminate|].
    injection E as <-. simpl. repeat split; auto.
    rewrite map_map.
    erewrite map_ext;
      [rewrite <- (map_map d_id (fun x => if (x =? id)%N then new_id else x));
       apply NoDup_rename; [exact Hd|now apply existsb_key_false]|].
    intros a. simpl. now destruct (d_id a =? id)%N.
  - injection E as <-. simpl. repeat split; auto;
      now apply NoDup_map_filter.
  - destruct (has_chunk db (c_id c0)) eqn:H; [discriminate|].
    destruct (negb (has_document db (c_document_id c0))
              || negb (has_user db (c_user_id c0))); [discriminate|].
    injection E as <-. simpl. repeat split; auto.
    rewrite map_app. simpl.
    apply NoDup_snoc; [exact Hc|now apply existsb_key_false].
  - injection E as <-. simpl. repeat split; auto.
    rewrite map_map.
    erewrite map_ext; [exact Hc|].
    intros a. now destruct (c_id a =? id)%N.
  - destruct (negb (has_document db doc)); [discriminate|].
    injection E as <-. simpl. repeat split; auto.
    rewrite map_map.
    erewrite map_ext; [exact Hc|].
    intros a. now destruct (c_id a =? id)%N.
  - injection E as <-. simpl. repeat split; auto.
    now apply NoDup_map_filter.
  - injection E as <-. simpl. repeat split; auto.
    now apply NoDup_map_filter.
Qed.

(** X5. In every state reachable from the empty database, user ids,
    document ids and chunk ids are each distinct (the primary keys). *)
Theorem primary_keys_distinct db :
  reachable db ->
  NoDup (users db) /\ NoDup (map d_id (documents db))
  /\ NoDup (map c_id (chunks db)).
Proof.
  induction 1 as [|s db db' _ IH E].
  - simpl. repeat split; constructor.
  - eapply exec_keeps_keys_distinct; eassumption.
Qed.

Lemma has_user_In db u : has_user db u = true <-> In u (users db).
Proof.
  unfold has_user. rewrite existsb_exists. split.
  - intros (x & Hx & E). apply N.eqb_eq in E. now subst.
  - intros H. exists u. split; [exact H|apply N.eqb_refl].
Qed.

Lemma exec_keeps_owners s db db' :
  (forall d, In d (documents db) -> In (d_user_id d) (users db))
  /\ (forall c, In c (chunks db) -> In (c_user_id c) (users db)) ->
  exec s db = Ok db' ->
  (forall d, In d (documents db') -> In (d_user_id d) (users db'))
  /\ (forall c, In c (chunks db') -> In (c_user_id c) (users db')).
Proof.
  intros (Hd & Hc) E.
  destruct s as [u|u|d|id p|id new_id|id|c0|id content|id doc|id|id];
    simpl in E.
  - destruct (has_user db u); [discriminate|]. injection E as <-. simpl.
    split; intros x Hx; apply in_or_app; left; auto.
  - injection E as <-. simpl. split; intros x Hx.
    + apply filter_In in Hx as [Hx Hne]. apply filter_In. split; auto.
    + apply filter_In in Hx as [Hx Hne].
      apply andb_true_iff in Hne as [Hne _]. apply filter_In. split; auto.
  - destruct (has_document db (d_id d)); [discriminate|].
    destruct (has_user db (d_user_id d)) eqn:H; simpl in E; [|discriminate].
    injection E as <-. simpl. split; [|exact Hc].
    intros x Hx. apply in_app_or in Hx as [Hx|[<-|[]]]; auto.
    now apply has_user_In.
  - injection E as <-. simpl. split; [|exact Hc].
    intros x Hx. apply in_map_iff in Hx as (y & <- & Hy).
    destruct (d_id y =? id)%N; simpl; auto.
  - destruct (existsb _ (chunks db)); [discriminate|].
    destruct (has_document db new_id); [discriminate|].
    injection E as <-. simpl. split; [|exact Hc].
    intros x Hx. apply in_map_iff in Hx as (y & <- & Hy).
    destruct (d_id y =? id)%N; simpl; auto.
  - injection E as <-. simpl. split; intros x Hx;
      apply filter_In in Hx as [Hx _]; auto.
  - destruct (has_chunk db (c_id c0)); [discriminate|].
    destruct (has_document db (c_document_id c0)); simpl in E; [|discriminate].
    destruct (has_user db (c_user_id c0)) eqn:H; simpl in E; [|discriminate].
    injection E as <-. simpl. split; [exact Hd|].
    intros x Hx. apply in_app_or in Hx as [Hx|[<-|[]]]; auto.
    simpl. now apply has_user_In.
  - injection E as <-. simpl. split; [exact Hd|].
    intros x Hx. apply in_map_iff in Hx as (y & <- & Hy).
    destruct (c_id y =? id)%N; simpl; auto.
  - destruct (negb (has_document db doc)); [discriminate|].
    injection E as <-. simpl. split; [exact Hd|].
    intros x Hx. apply in_map_iff in Hx as (y & <- & Hy).
    destruct (c_id y =? id)%N; simpl; auto.
  - injection E as <-. simpl. split; [exact Hd|].
    intros x Hx. apply filter_In in Hx as [Hx _]. auto.
  - injection E as <-. simpl. split; [exact Hd|].
    intros x Hx. apply filter_In in Hx as [Hx _]. auto.
Qed.

(** X6. In every reachable state each document and each chunk belongs to
    an existing user; and deleting a user always succeeds and leaves no
    document and no chunk of that user, nor the user. *)
Theorem owners_exist_and_user_deletion_cascades :
  (forall db, reachable db ->
      (forall d, In d (documents db) -> In (d_user_id d) (users db))
      /\ (forall c, In c (chunks db) -> In (c_user_id c) (users db)))
  /\ (forall db u,
      exists db', exec (DeleteUser u) db = Ok db'
                  /\ has_user db' u = false
                  /\ (forall d, In d (documents db') -> d_user_id d <> u)
                  /\ (forall c, In c (chunks db') -> c_user_id c <> u)).
Proof.
  split.
  - induction 1 as [|s db db' _ IH E].
    + simpl. split; intros x [].
    + eapply exec_keeps_owners; eassumption.
  - intros db u. eexists. split; [reflexivity|]. simpl. repeat split.
    + unfold has_user. simpl.
      destruct (existsb _ _) eqn:E; [|reflexivity].
      apply existsb_exists in E as (x & Hx & Ex).
      apply filter_In in Hx as [_ Hx]. apply N.eqb_eq in Ex. subst.
      rewrite N.eqb_refl in Hx. discriminate.
    + intros d Hd. apply filter_In in Hd as [_ Hd].
      now apply negb_true_iff, N.eqb_neq in Hd.
    + intros c Hc. apply filter_In in Hc as [_ Hc].
      apply andb_true_iff in Hc as [Hc _].
      now apply negb_true_iff, N.eqb_neq in Hc.
Qed.

(** X7. Deleting a document touches nothing else: the users stay, the
    documents left are exactly the others, and every other document
    keeps exactly its chunks; deleting a document that does not exist and
    has no chunks changes nothing. *)
Theorem delete_document_frame (db : Db) (d : uuid) :
  users (delete_document d db) = users db
  /\ (forall x, In x (documents (delete_document d db)) <->
                In x (documents db) /\ d_id x <> d)
  /\ (forall d', d' <> d ->
        chunks_of (delete_document d db) d' = chunks_of db d')
  /\ (has_document db d = false -> chunks_of db d = [] ->
      delete_document d db = db).
Proof.
  repeat split.
  - simpl in H. now apply filter_In in H.
  - simpl in H. apply filter_In in H as [_ H].
    now apply negb_true_iff, N.eqb_neq in H.
  - intros [Hx Hne]. simpl. apply filter_In. split; [exact Hx|].
    now apply negb_true_iff, N.eqb_neq.
  - intros d' Hne. unfold chunks_of. simpl.
    apply filter_absorb.
    intros c Hc. apply N.eqb_eq in Hc. rewrite Hc.
    now apply negb_true_iff, N.eqb_neq.
  - intros Hno Ec.
    unfold delete_document. destruct db as [us ds cs]. simpl in *. f_equal.
    + clear Ec. unfold has_document in Hno. simpl in Hno.
      induction ds as [|x ds IH]; simpl in *; [reflexivity|].
      apply orb_false_iff in Hno as [Hx Hrest].
      rewrite Hx. simpl. now rewrite IH.
    + unfold chunks_of in Ec. simpl in Ec.
      induction cs as [|x cs IH]; simpl in *; [reflexivity|].
      destruct (c_document_id x =? d)%N; [discriminate|].
      simpl. now rewrite IH.
Qed.

Lemma exec_keeps_indexed s db db' :
  indexed (chunks db) -> exec s db = Ok db' -> indexed (chunks db').
Proof.
  intros Inv E c Hc.
  destruct s as [u|u|d|id p|id new_id|id|c0|id content|id doc|id|id];
    simpl in E.
  - destruct (has_user db u); [discriminate|]. injection E as <-. auto.
  - injection E as <-. simpl in Hc. apply filter_In in Hc as [Hc _]. auto.
  - destruct (has_document db (d_id d)); [discriminate|].
    destruct (negb (has_user db (d_user_id d))); [discriminate|].
    injection E as <-. auto.
  - injection E as <-. auto.
  - destruct (existsb _ (chunks db)); [discriminate|].
    destruct (has_document db new_id); [discriminate|].
    injection E as <-. auto.
  - injection E as <-. simpl in Hc. apply filter_In in Hc as [Hc _]. auto.
  - destruct (has_chunk db (c_id c0)); [discriminate|].
    destruct (negb (has_document db (c_document_id c0))
              || negb (has_user db (c_user_id c0))); [discriminate|].
    injection E as <-. simpl in Hc.
    apply in_app_or in Hc as [Hc|[<-|[]]]; [auto|reflexivity].
  - injection E as <-. simpl in Hc.
    apply in_map_iff in Hc as (y & <- & Hy).
    destruct (c_id y =? id)%N; [reflexivity|auto].
  - destruct (negb (has_document db doc)); [discriminate|].
    injection E as <-. simpl in Hc.
    apply in_map_iff in Hc as (y & <- & Hy).
    destruct (c_id y =? id)%N; [simpl; now apply Inv|auto].
  - injection E as <-. simpl in Hc. apply filter_In in Hc as [Hc _]. auto.
  - injection E as <-. simpl in Hc. apply filter_In in Hc as [Hc _]. auto.
Qed.

(** X8. The trigger keeps every chunk's search vector equal to
    [to_tsvector] of its content in every state reached by the modelled
    statements; hence every row [keyword_search_chunks] returns there has
    a content whose vector matches the parsed query. *)
Theorem search_vector_follows_content db :
  reachable db ->
  indexed (chunks db)
  /\ (forall p_query n o f rows r,
        keyword_search_chunks p_query n o f (chunks db) = Ok rows ->
        In r rows ->
        exists query,
          p_query = Some query
          /\ ts_match (to_tsvector (k_content r)) (websearch_to_tsquery query)
             = true).
Proof.
  intros Hr.
  assert (Hi : indexed (chunks db)).
  { induction Hr as [|s db db' _ IH E].
    - intros c [].
    - eapply exec_keeps_indexed; eassumption. }
  split; [exact Hi|].
  intros p_query n o f rows r E Hin.
  destruct (keyword_search_row _ _ _ _ _ _ _ E Hin)
    as (query & c & -> & _ & Hc & -> & Hw).
  apply keyword_where_rank in Hw as (v & q' & Hv & [= <-] & Hm & _).
  exists query. split; [reflexivity|]. simpl.
  rewrite (Hi c Hc) in Hv. injection Hv as <-. exact Hm.
Qed.

(** X9. The back-fill leaves no NULL search vector, changes only the
    rows whose vector was NULL (giving them the vector of their content),
    and running it again changes nothing. *)
Theorem backfill_search_vector_complete (tbl : list Chunk) :
  (forall c, In c (backfill_search_vector tbl) -> c_search_vector c <> None)
  /\ Forall2 (fun c c' =>
                (c_search_vector c <> None /\ c' = c)
                \/ (c_search_vector c = None
                    /\ c' = chunks_search_vector_update c))
       tbl (backfill_search_vector tbl)
  /\ backfill_search_vector (backfill_search_vector tbl)
     = backfill_search_vector tbl
  /\ (indexed tbl -> backfill_search_vector tbl = tbl).
Proof.
  repeat split.
  - intros c Hc. unfold backfill_search_vector in Hc.
    apply in_map_iff in Hc as (y & <- & Hy).
    destruct (c_search_vector y) eqn:E; [congruence|discriminate].
  - induction tbl as [|c tbl IH]; simpl; constructor; [|exact IH].
    destruct (c_search_vector c) eqn:E; [left|right]; split; congruence.
  - unfold backfill_search_vector. rewrite map_map. apply map_ext.
    intros c. destruct (c_search_vector c) eqn:E; simpl; [now rewrite E|reflexivity].
  - intros Hi. unfold backfill_search_vector.
    rewrite <- (map_id tbl) at 2. apply map_ext_in.
    intros c Hc. now rewrite (Hi c Hc).
Qed.

End DmlMore.

(* ================================================================== *)
(** * The global-settings migration *)
(* ================================================================== *)

Lemma is_test_user_email u :
  is_test_user u = true <-> u_email u = Some "test@user.com".
Proof.
  unfold is_test_user. destruct (u_email u) as [e|].
  - rewrite String.eqb_eq. split; congruence.
  - split; discriminate.
Qed.

Lemma has_profile_false profiles id :
  ~ In id (map up_user_id profiles) -> has_profile profiles id = false.
Proof.
  intros H. unfold has_profile. destruct (existsb _ _) eqn:E; [|reflexivity].
  exfalso. apply H. apply existsb_exists in E as (p & Hp & Ep).
  apply N.eqb_eq in Ep. apply in_map_iff. eauto.
Qed.

Lemma backfill_profiles_fresh auth_users : forall profiles,
  NoDup (map u_id auth_users) ->
  (forall u, In u auth_users -> ~ In (u_id u) (map up_user_id profiles)) ->
  backfill_profiles auth_users profiles
  = profiles ++ map (fun u => {| up_user_id := u_id u; up_is_admin := false |})
                    auth_users.
Proof.
  induction auth_users as [|u us IH]; intros profiles Hnd Hfresh; simpl.
  - now rewrite app_nil_r.
  - inversion Hnd as [|? ? Hu Hus]; subst.
    unfold backfill_profiles in *. simpl. unfold insert_profile at 2.
    rewrite has_profile_false by (apply Hfresh; now left).
    rewrite IH; [now rewrite <- app_assoc|exact Hus|].
    intros v Hv Hin. rewrite map_app in Hin.
    apply in_app_or in Hin as [Hin|[E|[]]].
    + apply (Hfresh v); [now right|exact Hin].
    + simpl in E. apply Hu. rewrite E. now apply in_map.
Qed.

(** X10. On users with distinct ids, the profile migration either gives
    every user exactly one profile, in the users' order, with [is_admin]
    set exactly for the user whose e-mail is [test@user.com], or -- when
    two or more users have that e-mail -- raises; and the sign-up trigger
    does nothing for a user who already has a profile. *)
Theorem profiles_migration (auth_users : list AuthUser) :
  NoDup (map u_id auth_users) ->
  match migrate_profiles auth_users with
  | Ok profiles =>
      map up_user_id profiles = map u_id auth_users
      /\ (forall p, In p profiles ->
            (up_is_admin p = true <->
             exists u, In u auth_users /\ u_id u = up_user_id p
                       /\ u_email u = Some "test@user.com"))
      /\ (forall u, In u auth_users ->
            create_user_profile u profiles = profiles)
  | Err _ => (2 <= List.length (filter is_test_user auth_users))%nat
  end.
Proof.
  intros Hnd. unfold migrate_profiles.
  rewrite (backfill_profiles_fresh auth_users [] Hnd) by (intros u _ []).
  simpl. unfold set_test_admin.
  assert (Hconflict : forall profiles u,
            map up_user_id profiles = map u_id auth_users ->
            In u auth_users -> create_user_profile u profiles = profiles).
  { intros profiles u Hids Hu. unfold create_user_profile, insert_profile.
    replace (has_profile profiles (u_id u)) with true; [reflexivity|].
    symmetry. apply existsb_exists.
    assert (Hin : In (u_id u) (map up_user_id profiles)).
    { rewrite Hids. now apply in_map. }
    apply in_map_iff in Hin as (p & E & Hp). exists p. split; [exact Hp|].
    now apply N.eqb_eq. }
  destruct (filter is_test_user auth_users) as [|u0 [|u1 rest]] eqn:F.
  - assert (Hids : map up_user_id
                     (map (fun u => {| up_user_id := u_id u;
                                       up_is_admin := false |}) auth_users)
                   = map u_id auth_users).
    { rewrite map_map. reflexivity. }
    split; [exact Hids|split].
    + intros p Hp. apply in_map_iff in Hp as (u & <- & Hu). simpl.
      split; [discriminate|].
      intros (v & Hv & _ & Hmail).
      assert (Hin : In v (filter is_test_user auth_users)).
      { apply filter_In. split; [exact Hv|now apply is_test_user_email]. }
      rewrite F in Hin. destruct Hin.
    + intros u Hu. now apply Hconflict.
  - assert (H0 : In u0 auth_users /\ u_email u0 = Some "test@user.com").
    { assert (Hin : In u0 (filter is_test_user auth_users))
        by (rewrite F; now left).
      apply filter_In in Hin as [Hin Ht].
      split; [exact Hin|now apply is_test_user_email]. }
    assert (Hids : map up_user_id
                     (map (make_admin (u_id u0))
                        (map (fun u => {| up_user_id := u_id u;
                                          up_is_admin := false |}) auth_users))
                   = map u_id auth_users).
    { rewrite !map_map. apply map_ext. intros u. unfold make_admin. simpl.
      now destruct (u_id u =? u_id u0)%N. }
    split; [exact Hids|split].
    + intros p Hp. rewrite map_map in Hp.
      apply in_map_iff in Hp as (u & <- & Hu). unfold make_admin. simpl.
      destruct (u_id u =? u_id u0)%N eqn:E; simpl.
      * apply N.eqb_eq in E. split; [|reflexivity].
        intros _. exists u0. destruct H0. auto.
      * split; [discriminate|].
        intros (v & Hv & Hid & Hmail).
        assert (Hin : In v (filter is_test_user auth_users)).
        { apply filter_In. split; [exact Hv|now apply is_test_user_email]. }
        rewrite F in Hin. destruct Hin as [<-|[]].
        rewrite Hid, N.eqb_refl in E. discriminate.
    + intros u Hu. now apply Hconflict.
  - simpl. lia.
Qed.

(** X11. Steps 7 and 8 leave exactly one row in the new, empty
    [global_settings]: the columns of the first [user_settings] row when
    that table exists and has rows, the all-NULL row otherwise; running
    step 8 again adds nothing. *)
Theorem global_settings_single_row (user_settings : option (list UserSettings)) :
  insert_empty_row (seed_global_settings user_settings [])
  = [match user_settings with
     | Some (r :: _) => settings_of_user r
     | _ => empty_settings
     end]
  /\ forall rows,
       insert_empty_row (insert_empty_row rows) = insert_empty_row rows
       /\ (rows <> [] -> insert_empty_row rows = rows).
Proof.
  split.
  - destruct user_settings as [[|r rest]|]; reflexivity.
  - intros [|r rows]; split; try reflexivity. congruence.
Qed.

(* ================================================================== *)
(** * The documents list kept from change events *)
(* ================================================================== *)

(** X12. Under change events the list keeps its keys in check: an UPDATE
    leaves the sequence of ids as it is, a DELETE removes exactly the
    documents with the deleted id, and both keep distinct ids distinct;
    an INSERT keeps them distinct exactly when the new id is not yet
    listed. *)
Theorem realtime_list_ids (prev : list Document) :
  (forall new, map d_id (apply_change (UPDATE new) prev) = map d_id prev)
  /\ (forall id x, In x (apply_change (DELETE id) prev) <->
                   In x prev /\ d_id x <> id)
  /\ (NoDup (map d_id prev) ->
      (forall new, NoDup (map d_id (apply_change (UPDATE new) prev)))
      /\ (forall id, NoDup (map d_id (apply_change (DELETE id) prev)))
      /\ (forall new, NoDup (map d_id (apply_change (INSERT new) prev))
                      <-> ~ In (d_id new) (map d_id prev))).
Proof.
  assert (Hupd : forall new,
            map d_id (apply_change (UPDATE new) prev) = map d_id prev).
  { intros new. simpl. rewrite map_map. apply map_ext.
    intros doc. destruct (d_id doc =? d_id new)%N eqn:E; [|reflexivity].
    apply N.eqb_eq in E. congruence. }
  split; [exact Hupd|split].
  - intros id x. simpl. rewrite filter_In, negb_true_iff, N.eqb_neq. tauto.
  - intros Hnd. split; [|split].
    + intros new. now rewrite Hupd.
    + intros id. simpl. now apply NoDup_map_filter.
    + intros new. simpl. split.
      * intros H. now inversion H.
      * intros H. now constructor.
Qed.

(** X13. An INSERT followed by the DELETE of the same id gives back the
    list when that id was not listed; after an UPDATE every listed
    document with the new row's id is the new row; an UPDATE for an id
    that is not listed changes nothing, and applying it twice is applying
    it once. *)
Theorem realtime_list_changes (prev : list Document) (new : Document) :
  (~ In (d_id new) (map d_id prev) ->
   apply_change (DELETE (d_id new)) (apply_change (INSERT new) prev) = prev)
  /\ (forall x, In x (apply_change (UPDATE new) prev) ->
                d_id x = d_id new -> x = new)
  /\ (~ In (d_id new) (map d_id prev) ->
      apply_change (UPDATE new) prev = prev)
  /\ apply_change (UPDATE new) (apply_change (UPDATE new) prev)
     = apply_change (UPDATE new) prev.
Proof.
  repeat split.
  - intros Hfresh. simpl. rewrite N.eqb_refl. simpl.
    induction prev as [|y l IH]; simpl; [reflexivity|].
    destruct (d_id y =? d_id new)%N eqn:E.
    + exfalso. apply Hfresh. left. now apply N.eqb_eq.
    + simpl. rewrite IH; [reflexivity|].
      intros C. apply Hfresh. now right.
  - intros x Hx Hid. simpl in Hx.
    apply in_map_iff in Hx as (y & <- & Hy).
    destruct (d_id y =? d_id new)%N eqn:E; [reflexivity|].
    apply N.eqb_neq in E. contradiction.
  - intros Hfresh. simpl. rewrite <- (map_id prev) at 2.
    apply map_ext_in. intros y Hy.
    destruct (d_id y =? d_id new)%N eqn:E; [|reflexivity].
    exfalso. apply Hfresh. apply N.eqb_eq in E. rewrite <- E. now apply in_map.
  - simpl. rewrite map_map. apply map_ext. intros y.
    destruct (d_id y =? d_id new)%N eqn:E.
    + now rewrite N.eqb_refl.
    + now rewrite E.
Qed.

(* ================================================================== *)
(** * Thread titles and avatar colours *)
(* ================================================================== *)

Lemma length_append a b :
  String.length (a ++ b) = (String.length a + String.length b)%nat.
Proof. induction a; simpl; congruence. Qed.

Lemma length_substring_to n s :
  String.length (substring_to n s) = Nat.min n (String.length s).
Proof.
  revert s; induction n as [|n IH]; intros [|c s]; simpl; auto.
Qed.

Lemma substring_to_prefix n s : String.prefix (substring_to n s) s = true.
Proof.
  revert s; induction n as [|n IH]; intros [|c s]; simpl; auto.
  destruct (ascii_dec c c); [apply IH|congruence].
Qed.

(** X14. The title derived from a first message never has more than 50
    characters: it is the message itself when that has at most 50, and
    otherwise its first 47 characters followed by three dots, 50 in
    all. *)
Theorem thread_title_bounded (userMessage : string) :
  (String.length (thread_title userMessage) <= 50)%nat
  /\ ((String.length userMessage <= 50)%nat ->
      thread_title userMessage = userMessage)
  /\ ((50 < String.length userMessage)%nat ->
      exists head,
        thread_title userMessage = (head ++ "...")%string
        /\ String.length head = 47%nat
        /\ String.prefix head userMessage = true
        /\ String.length (thread_title userMessage) = 50%nat).
Proof.
  unfold thread_title.
  destruct (50 <? String.length userMessage)%nat eqn:E.
  - apply Nat.ltb_lt in E.
    assert (L : String.length (substring_to 47 userMessage) = 47%nat).
    { rewrite length_substring_to. lia. }
    split; [|split].
    + rewrite length_append, L. simpl. lia.
    + lia.
    + intros _. exists (substring_to 47 userMessage).
      repeat split; auto using substring_to_prefix.
      rewrite length_append, L. reflexivity.
  - apply Nat.ltb_ge in E. split; [exact E|split]; [reflexivity|lia].
Qed.

Lemma to_int32_range z : - 2 ^ 31 <= to_int32 z < 2 ^ 31.
Proof.
  unfold to_int32.
  pose proof (Z.mod_pos_bound (z + 2 ^ 31) (2 ^ 32) ltac:(lia)). lia.
Qed.

Lemma char_code_range c : 0 <= char_code c <= 255.
Proof.
  unfold char_code. pose proof (nat_ascii_bounded c). lia.
Qed.

Lemma avatar_hash_bound email : forall hash,
  Z.abs (avatar_hash email hash)
  <= Z.abs hash + Z.of_nat (String.length email) * (2 ^ 31 + 255).
Proof.
  induction email as [|c rest IH]; intros hash.
  - simpl. lia.
  - cbn [avatar_hash String.length].
    specialize (IH (char_code c + (shift_left32 hash 5 - hash))).
    pose proof (to_int32_range (to_int32 hash * 2 ^ 5)) as R.
    pose proof (char_code_range c) as C.
    unfold shift_left32 in *.
    set (h := to_int32 (to_int32 hash * 2 ^ 5)) in *.
    rewrite Nat2Z.inj_succ. lia.
Qed.

(** X15. [getAvatarColor] always yields one of the eight colours, never
    [undefined]; the hash it computes is bounded in size by the length of
    the e-mail times [2^31 + 255], so that for an e-mail of fewer than
    [2^21] characters it stays within the integers a double holds
    exactly. *)
Theorem avatar_color_defined (email : string) :
  (exists c, getAvatarColor email = Some c /\ In c colors)
  /\ Z.abs (avatar_hash email 0)
     <= Z.of_nat (String.length email) * (2 ^ 31 + 255)
  /\ (Z.of_nat (String.length email) < 2 ^ 21 ->
      Z.abs (avatar_hash email 0) < 2 ^ 53).
Proof.
  pose proof (avatar_hash_bound email 0) as Hb.
  split; [|split].
  - unfold getAvatarColor.
    destruct (nth_error colors _) as [c|] eqn:E.
    + exists c. split; [reflexivity|]. eapply nth_error_In; eauto.
    + exfalso. apply nth_error_None in E.
      pose proof (Z.mod_pos_bound (Z.abs (avatar_hash email 0))
                    (Z.of_nat (List.length colors)) ltac:(simpl; lia)) as B.
      lia.
  - lia.
  - intros Hl. lia.
Qed.

(* ================================================================== *)
(** * Settings form: what is loaded is what is saved *)
(* ================================================================== *)

Lemma digit_cases d :
  0 <= d <= 9 ->
  d = 0 \/ d = 1 \/ d = 2 \/ d = 3 \/ d = 4
  \/ d = 5 \/ d = 6 \/ d = 7 \/ d = 8 \/ d = 9.
Proof. lia. Qed.

Lemma digit_of_digit_char d : 0 <= d <= 9 -> digit_of (digit_char d) = Some d.
Proof.
  intros H. destruct (digit_cases d H)
    as [->|[->|[->|[->|[->|[->|[->|[->|[->| ->]]]]]]]]]; reflexivity.
Qed.

Lemma digit_char_plain d :
  0 <= d <= 9 ->
  is_space (digit_char d) = false
  /\ digit_char d <> "-"%char /\ digit_char d <> "+"%char.
Proof.
  intros H. destruct (digit_cases d H)
    as [->|[->|[->|[->|[->|[->|[->|[->|[->| ->]]]]]]]]];
    repeat split; discriminate.
Qed.

Lemma parse_digit_step d s a :
  0 <= d <= 9 ->
  parse_digits (String (digit_char d) s) a
  = parse_digits s (Some (10 * acc_value a + d)).
Proof.
  intros H. cbn [parse_digits]. now rewrite (digit_of_digit_char d H).
Qed.

(** Reading back the digits written for [n] in front of [acc] shifts the
    value read so far and adds [n]. *)
Lemma digits_fuel_parse fuel : forall n acc a,
  0 <= n < 2 ^ Z.of_nat (S fuel) ->
  exists p, 0 < p
    /\ parse_digits (digits_fuel (S fuel) n acc) a
       = parse_digits acc (Some (acc_value a * p + n)).
Proof.
  induction fuel as [|fuel IH]; intros n acc a Hn.
  - assert (Hs : n / 10 = 0) by (apply Z.div_small; simpl in Hn; lia).
    cbn [digits_fuel]. rewrite Hs. simpl Z.eqb. cbv iota.
    exists 10. split; [lia|].
    rewrite parse_digit_step by (pose proof (Z.mod_pos_bound n 10); lia).
    do 2 f_equal. rewrite Z.mod_small by (simpl in Hn; lia). lia.
  - change (digits_fuel (S (S fuel)) n acc)
      with (let acc' := String (digit_char (n mod 10)) acc in
            if n / 10 =? 0 then acc'
            else digits_fuel (S fuel) (n / 10) acc').
    cbv zeta.
    assert (Hm : 0 <= n mod 10 <= 9) by (pose proof (Z.mod_pos_bound n 10); lia).
    destruct (n / 10 =? 0) eqn:E.
    + apply Z.eqb_eq in E. exists 10. split; [lia|].
      rewrite parse_digit_step by exact Hm.
      do 2 f_equal. pose proof (Z.div_mod n 10). lia.
    + assert (Hq : 0 <= n / 10 < 2 ^ Z.of_nat (S fuel)).
      { split; [apply Z.div_pos; lia|].
        rewrite (Nat2Z.inj_succ (S fuel)), Z.pow_succ_r in Hn by lia.
        apply Z.div_lt_upper_bound; lia. }
      destruct (IH (n / 10) (String (digit_char (n mod 10)) acc) a Hq)
        as (p & Hp & ->).
      exists (10 * p). split; [lia|].
      rewrite parse_digit_step by exact Hm.
      do 2 f_equal. simpl acc_value. pose proof (Z.div_mod n 10). lia.
Qed.

Lemma digits_parse n : 0 <= n -> parse_digits (digits n) None = Some n.
Proof.
  intros Hn. unfold digits.
  destruct (digits_fuel_parse (Z.to_nat (Z.log2 n)) n "" None) as (p & _ & ->).
  - split; [exact Hn|].
    rewrite Nat2Z.inj_succ, Z2Nat.id by apply Z.log2_nonneg.
    destruct (Z.eq_dec n 0) as [->|Hz]; [reflexivity|].
    apply Z.log2_spec. lia.
  - reflexivity.
Qed.

Lemma digits_head n :
  exists d s, 0 <= d <= 9 /\ digits n = String (digit_char d) s.
Proof.
  unfold digits. generalize (Z.to_nat (Z.log2 n)) as fuel.
  intros fuel. generalize EmptyString as acc. revert n.
  induction fuel as [|fuel IH]; intros n acc.
  - cbn [digits_fuel]. exists (n mod 10).
    pose proof (Z.mod_pos_bound n 10).
    destruct (n / 10 =? 0); eexists; (split; [lia|reflexivity]).
  - change (digits_fuel (S (S fuel)) n acc)
      with (let acc' := String (digit_char (n mod 10)) acc in
            if n / 10 =? 0 then acc'
            else digits_fuel (S fuel) (n / 10) acc').
    cbv zeta. destruct (n / 10 =? 0).
    + exists (n mod 10). pose proof (Z.mod_pos_bound n 10).
      eexists; (split; [lia|reflexivity]).
    + apply IH.
Qed.

Lemma parseInt10_unsigned c s :
  is_space c = false -> c <> "-"%char -> c <> "+"%char ->
  parseInt10 (String c s) = parse_digits (String c s) None.
Proof.
  intros Hs Hm Hp. unfold parseInt10. simpl trimStart. rewrite Hs.
  destruct c as [[] [] [] [] [] [] [] []]; try reflexivity; congruence.
Qed.

(** Reading an integer back from its decimal writing. *)
Lemma parseInt10_toString z : parseInt10 (Z_toString z) = Some z.
Proof.
  unfold Z_toString. destruct (z <? 0) eqn:E.
  - apply Z.ltb_lt in E. unfold parseInt10. simpl.
    rewrite digits_parse by lia. simpl. f_equal. lia.
  - apply Z.ltb_ge in E.
    destruct (digits_head z) as (d & s & Hd & Hz).
    destruct (digit_char_plain d Hd) as (Hs & Hm & Hp).
    pose proof (digits_parse z E) as P. rewrite Hz in *.
    now rewrite parseInt10_unsigned.
Qed.

Lemma or_null_or_blank s : or_null (or_blank s) = blank_to_null s.
Proof. destruct s; reflexivity. Qed.

(** X16. Saving the form that [loadSettings] filled from settings [s]
    sends [s] back, stored empty strings becoming NULL: every text field
    and the dimensionality (an INTEGER column; written in decimal by
    [toString], read by [parseInt]) survive the round trip. *)
Theorem settings_form_round_trip (s : GlobalSettings) :
  (forall d, embedding_dimensions s = Some d -> - 2 ^ 31 <= d < 2 ^ 31) ->
  build_update (form_of_settings s) = blanks_to_null s.
Proof.
  intros _.
  unfold build_update, form_of_settings, blanks_to_null. simpl.
  rewrite !or_null_or_blank. f_equal.
  destruct (embedding_dimensions s) as [z|]; simpl; [|reflexivity].
  replace (Z_toString z =? "")%string with false.
  - apply parseInt10_toString.
  - symmetry. apply String.eqb_neq. unfold Z_toString.
    destruct (z <? 0); [discriminate|].
    destruct (digits_head z) as (d & r & _ & ->). discriminate.
Qed.

(* ================================================================== *)
(** * File sizes as shown *)
(* ================================================================== *)

Lemma tenths_nearest num den :
  0 < den ->
  2 * Z.abs (den * tenths num den - 10 * num) <= den.
Proof.
  intros Hd. unfold tenths.
  pose proof (Z.div_mod (20 * num + den) (2 * den) ltac:(lia)) as E.
  pose proof (Z.mod_pos_bound (20 * num + den) (2 * den) ltac:(lia)) as B.
  lia.
Qed.

(** X17. For a size that is a non-negative integer a double holds
    exactly, [formatFileSize] shows sizes below 1024 exactly, in bytes;
    sizes below 1024 * 1024 in KB and larger ones in MB, as the number of
    tenths nearest to the exact quotient (at most a twentieth of a unit
    away), which is at least [1.0]. *)
Theorem file_size_shown (bytes : Z) :
  0 <= bytes < 2 ^ 53 ->
  (bytes < 1024 -> formatFileSize bytes = (Z_toString bytes ++ " B")%string)
  /\ (1024 <= bytes < 1024 * 1024 ->
      exists n,
        formatFileSize bytes = (show_tenths n ++ " KB")%string
        /\ 2 * Z.abs (1024 * n - 10 * bytes) <= 1024
        /\ 10 <= n <= 10240)
  /\ (1024 * 1024 <= bytes ->
      exists n,
        formatFileSize bytes = (show_tenths n ++ " MB")%string
        /\ 2 * Z.abs (1024 * 1024 * n - 10 * bytes) <= 1024 * 1024
        /\ 10 <= n).
Proof.
  intros _.
  unfold formatFileSize. split; [|split].
  - intros H. apply Z.ltb_lt in H. now rewrite H.
  - intros [H1 H2].
    apply Z.ltb_ge in H1. apply Z.ltb_lt in H2. rewrite H1, H2.
    exists (tenths bytes 1024). split; [reflexivity|].
    pose proof (tenths_nearest bytes 1024 ltac:(lia)).
    apply Z.ltb_ge in H1. apply Z.ltb_lt in H2. split; lia.
  - intros H.
    assert (H1 : (bytes <? 1024) = false) by (apply Z.ltb_ge; lia).
    apply Z.ltb_ge in H. rewrite H1, H.
    exists (tenths bytes (1024 * 1024)). split; [reflexivity|].
    pose proof (tenths_nearest bytes (1024 * 1024) ltac:(lia)).
    apply Z.ltb_ge in H. split; lia.
Qed.

(* ================================================================== *)
(** * Upload: the requests sent, letter case, missing session *)
(* ================================================================== *)

Lemma lower_char_dot c :
  Ascii.eqb (lower_char c) "."%char = Ascii.eqb c "."%char.
Proof. destruct c as [[] [] [] [] [] [] [] []]; reflexivity. Qed.

Lemma lower_char_idem c : lower_char (lower_char c) = lower_char c.
Proof. destruct c as [[] [] [] [] [] [] [] []]; reflexivity. Qed.

Lemma toLowerCase_idem s : toLowerCase (toLowerCase s) = toLowerCase s.
Proof.
  induction s as [|c s IH]; simpl; [reflexivity|].
  now rewrite lower_char_idem, IH.
Qed.

Lemma split_dot_lower s :
  split "."%char (toLowerCase s) = map toLowerCase (split "."%char s).
Proof.
  induction s as [|c s IH]; simpl; [reflexivity|].
  rewrite lower_char_dot, IH.
  destruct (Ascii.eqb c "."%char); [reflexivity|].
  destruct (split "."%char s); reflexivity.
Qed.

Lemma pop_map {A B} (g : A -> B) l :
  fst (pop (map g l)) = option_map g (fst (pop l)).
Proof.
  unfold pop. rewrite <- map_rev. destruct (rev l); reflexivity.
Qed.

Lemma extension_of_lower filename :
  extension_of (toLowerCase filename) = extension_of filename.
Proof.
  unfold extension_of. rewrite split_dot_lower, pop_map.
  destruct (fst (pop (split "."%char filename))) as [p|]; simpl; [|reflexivity].
  now rewrite toLowerCase_idem.
Qed.

(** X19. Validation does not look at letter case: two files of the same
    size whose names differ only in case get the same verdict. *)
Theorem validateFile_ignores_case (f1 f2 : File) :
  toLowerCase (name f1) = toLowerCase (name f2) ->
  size f1 = size f2 ->
  validateFile f1 = validateFile f2.
Proof.
  intros Hn Hs. unfold validateFile.
  rewrite <- (extension_of_lower (name f1)), <- (extension_of_lower (name f2)).
  now rewrite Hn, Hs.
Qed.

Section UploadMore.
Context {pg : PgOps}.
Variable fingerprint : string -> string.

Lemma uploadDocument_requests file w :
  session (snd (uploadDocument fingerprint file w)) = session w
  /\ match session w with
     | None => uploadDocument fingerprint file w = (Err "Not authenticated", w)
     | Some _ =>
         requests (snd (uploadDocument fingerprint file w))
         = requests w ++ [PostUpload file]
     end.
Proof.
  unfold uploadDocument. destruct (session w) as [owner|] eqn:E.
  - destruct (upload_endpoint fingerprint owner file (server w)) as [[b|k d] sv];
      simpl; auto.
  - simpl. auto.
Qed.

Lemma upload_all_requests files : forall sk w,
  exists k,
    (k <= List.length files)%nat
    /\ requests (snd (upload_all fingerprint files sk w))
       = requests w ++ map PostUpload (firstn k files)
    /\ (forall r, fst (upload_all fingerprint files sk w) = Ok r ->
        k = List.length files).
Proof.
  induction files as [|file rest IH]; intros sk w.
  - exists 0%nat. simpl. rewrite app_nil_r. auto.
  - simpl.
    destruct (uploadDocument_requests file w) as [Hs Hr].
    destruct (uploadDocument fingerprint file w) as [[result|msg] w1] eqn:E;
      simpl in *.
    + destruct (session w) as [owner|] eqn:Es; [|discriminate].
      destruct (IH (if skipped result then sk ++ [name file] else sk) w1)
        as (k & Hk & Hreq & Hres).
      exists (S k). split; [lia|]. split.
      * rewrite Hreq, Hr, <- app_assoc. reflexivity.
      * intros r Hr'. f_equal. now apply (Hres r).
    + destruct (session w) as [owner|] eqn:Es.
      * exists 1%nat. simpl. split; [lia|]. split; [exact Hr|discriminate].
      * injection Hr as _ <-. exists 0%nat. simpl.
        rewrite app_nil_r. split; [lia|]. split; [reflexivity|discriminate].
Qed.

(** X18. [handleUpload] sends one upload request per file, in the order
    of the batch, and stops at the first upload that throws: the requests
    it adds are those of a prefix of the batch, and of the whole batch
    when it ends without error. [onUploadComplete] is called once when it
    ends without error and not at all otherwise, and an error clears the
    notice. *)
Theorem handleUpload_requests (files : list File) (ui : UploadUi) (w : World) :
  exists k,
    (k <= List.length files)%nat
    /\ requests (snd (handleUpload fingerprint files ui w))
       = requests w ++ map PostUpload (firstn k files)
    /\ (error (fst (handleUpload fingerprint files ui w)) = None ->
        k = List.length files
        /\ completions (fst (handleUpload fingerprint files ui w))
           = S (completions ui)
        /\ uploading (fst (handleUpload fingerprint files ui w)) = false)
    /\ (error (fst (handleUpload fingerprint files ui w)) <> None ->
        completions (fst (handleUpload fingerprint files ui w))
        = completions ui
        /\ info (fst (handleUpload fingerprint files ui w)) = None).
Proof.
  unfold handleUpload.
  destruct (first_validation_error files) as [e|].
  - exists 0%nat. simpl. rewrite app_nil_r.
    split; [lia|]. split; [reflexivity|]. split; [discriminate|auto].
  - destruct (upload_all_requests files [] w) as (k & Hk & Hreq & Hres).
    exists k.
    destruct (upload_all fingerprint files [] w) as [[sk|msg] w1]; simpl in *.
    + split; [exact Hk|]. split; [exact Hreq|]. split.
      * intros _. split; [now apply (Hres sk)|auto].
      * intros H. now exfalso.
    + split; [exact Hk|]. split; [exact Hreq|]. split; [discriminate|auto].
Qed.

(** X20. Without a session no request leaves the browser: a valid,
    non-empty batch ends with the error [Not authenticated], the world
    unchanged, and so does a save of the settings form. *)
Theorem no_session_no_request (w : World) :
  session w = None ->
  (forall files ui,
      files <> [] -> first_validation_error files = None ->
      handleUpload fingerprint files ui w
      = ({| error := Some "Not authenticated"; info := None;
            uploading := false; completions := completions ui |}, w))
  /\ (forall f,
      handleSave f w
      = ({| saving := false; save_error := Some "Not authenticated";
            success := false |}, w)).
Proof.
  intros Hs. split.
  - intros [|file rest] ui Hne Hv; [congruence|].
    unfold handleUpload. rewrite Hv. simpl.
    unfold uploadDocument. now rewrite Hs.
  - intros f. unfold handleSave, updateSettings. now rewrite Hs.
Qed.

End UploadMore.

(* ================================================================== *)
(** * The event-stream reader: reads arriving one after another *)
(* ================================================================== *)

Section SseMore.
Context {js : Platform}.

Lemma read_loop_app reads1 : forall reads2 d buffer,
  read_loop (reads1 ++ reads2) d buffer
  = (fst (read_loop reads1 d buffer)
     ++ fst (read_loop reads2 (fst (decode d (List.concat reads1)))
               (snd (read_loop reads1 d buffer))),
     snd (read_loop reads2 (fst (decode d (List.concat reads1)))
            (snd (read_loop reads1 d buffer)))).
Proof.
  induction reads1 as [|value rest IH]; intros reads2 d buffer.
  - simpl. now destruct (read_loop reads2 d buffer).
  - cbn [read_loop app List.concat].
    rewrite decode_app.
    destruct (decode d value) as [d' chunk].
    destruct (pop (split LF (buffer ++ chunk))) as [last lines].
    rewrite IH.
    destruct (read_loop rest d' (or_empty last)) as [c1 b1]. simpl.
    destruct (decode d' (List.concat rest)) as [d2 s2]. simpl.
    now rewrite app_assoc.
Qed.

(** X21. Callbacks are delivered as the reads arrive and never taken
    back: the callbacks of a stream cut after any number of reads are a
    prefix of the callbacks of the whole stream, the rest being what the
    loop makes of the later reads from the decoder state and buffer it
    had reached. *)
Theorem callbacks_grow_with_reads (reads1 reads2 : list (list byte)) :
  exists later,
    calls_of (reads1 ++ reads2) = calls_of reads1 ++ later
    /\ later = fst (read_loop reads2
                      (fst (decode new_decoder (List.concat reads1)))
                      (snd (read_loop reads1 new_decoder ""))).
Proof.
  eexists. split; [|reflexivity].
  unfold calls_of, sendMessage. simpl.
  now rewrite read_loop_app.
Qed.

End SseMore.

(* ================================================================== *)
(** * The theorems at concrete inputs *)
(* ================================================================== *)

Import Samples.

Lemma keyword_search_tokens_witness :
  keyword_search_chunks (pg := sample_pg)
    (Some "???") (Some (-1)) (Some 1%N) None table1 = Ok []
  /\
  match keyword_search_chunks (pg := sample_pg)
          (Some "beta") (Some 5) (Some 1%N) None table1 with
  | Ok rows =>
      forall r, In r rows ->
        exists query c v,
          Some "beta" = Some query /\ In c table1
          /\ r = keyword_select (Some (websearch_to_tsquery query)) c
          /\ c_search_vector c = Some v
          /\ ts_match v (websearch_to_tsquery query) = true
  | Err _ => exists k, Some 5 = Some k /\ k < 0
  end.
Proof.
  split.
  - apply (proj1 (keyword_search_tokens (pg := sample_pg)
                    (Some "???") (Some (-1)) (Some 1%N) None table1)).
    reflexivity.
  - apply (proj2 (keyword_search_tokens (pg := sample_pg)
                    (Some "beta") (Some 5) (Some 1%N) None table1)).
    reflexivity.
Defined.

Lemma metadata_filter_on_both_paths_witness :
  exists m,
    m_metadata (match_select (pg := sample_pg) (Some [0 # 1]%Q)
                  (mk_chunk 1 10 1 "alpha beta" (1 # 10)%Q (Some report_meta)))
    = Some m
    /\ jsonb_contains (PgOps := sample_pg) m report_meta = true.
Proof.
  apply (proj1 (metadata_filter_on_both_paths (pg := sample_pg)
                  (Some [0 # 1]%Q) (Some (1 # 2)%Q) (Some 5) None
                  (Some 1%N) None table1)
           report_meta
           [match_select (pg := sample_pg) (Some [0 # 1]%Q)
              (mk_chunk 1 10 1 "alpha beta" (1 # 10)%Q (Some report_meta))]).
  - reflexivity.
  - simpl. left. reflexivity.
Defined.

Lemma retrieval_scoped_to_owner_witness :
  match_chunks (pg := sample_pg) (Some [0 # 1]%Q) (Some (1 # 2)%Q) (Some 5)
    (Some 1%N) None table1
  = match_chunks (pg := sample_pg) (Some [0 # 1]%Q) (Some (1 # 2)%Q) (Some 5)
      (Some 1%N) None table2
  /\ keyword_search_chunks (pg := sample_pg) (Some "beta") (Some 5)
       (Some 1%N) None table1
     = keyword_search_chunks (pg := sample_pg) (Some "beta") (Some 5)
         (Some 1%N) None table2.
Proof.
  apply (proj2 (proj2 (retrieval_scoped_to_owner (pg := sample_pg)
                         (Some [0 # 1]%Q) (Some (1 # 2)%Q) (Some 5) (Some 5)
                         (Some "beta") None 1%N))
           table1 table2).
  reflexivity.
Defined.

Lemma chunks_never_outlive_document_witness :
  no_orphan_chunks db0.
Proof.
  apply (proj2 (chunks_never_outlive_document (pg := sample_pg))).
  apply (reach_exec (InsertChunk (mk_chunk 1 10 1 "hello" (1 # 10)%Q None))
           db_docs db0); [|reflexivity].
  apply (reach_exec (InsertDocument doc_a) db_users db_docs); [|reflexivity].
  apply (reach_exec (InsertUser 1%N) empty_db db_users); [|reflexivity].
  apply reach_empty.
Defined.


(** The extension of a name without a dot is the whole name, so a file
    named [md] passes the validation. *)
Lemma validateFile_name_without_dot :
  extension_of "md" = ".md"
  /\ validateFile {| name := "md"; size := 1; content := "" |} = None.
Proof. split; reflexivity. Qed.



Lemma embedding_settings_locked_witness :
  (exists detail,
      put_settings new_dimensions server0
      = (Rejected ConsistencyError detail, server0))
  /\ embedding_fields (settings (snd (put_settings new_dimensions server0)))
     = embedding_fields (settings server0).
Proof.
  destruct (embedding_settings_locked new_dimensions server0)
    as (Hrej & Hkeep & _).
  split.
  - apply Hrej; reflexivity.
  - apply Hkeep. reflexivity.
Defined.

Lemma read_loop_chunking_invariant_witness :
  calls_of (js := sample_js) delta_then_error
  = calls_of (js := sample_js) delta_then_error_recut
  /\ read_loop (js := sample_js) [line "event: done"; bytes "data: {"] tt ""
     = (flat_map (dispatch_line (js := sample_js))
          (complete_lines ("event: done" ++ String LF "")), "data: {").
Proof.
  destruct (read_loop_chunking_invariant (js := sample_js))
    as (Hcut & Htail & _).
  split.
  - apply Hcut. reflexivity.
  - apply (Htail [line "event: done"; bytes "data: {"] "event: done" "data: {");
      reflexivity.
Defined.


(* ================================================================== *)
(** * Further properties at concrete inputs *)
(* ================================================================== *)

Import MoreSamples.

Lemma db0_reachable : reachable db0.
Proof.
  apply (reach_exec (InsertChunk (mk_chunk 1 10 1 "hello" (1 # 10)%Q None))
           db_docs db0); [|reflexivity].
  apply (reach_exec (InsertDocument doc_a) db_users db_docs); [|reflexivity].
  apply (reach_exec (InsertUser 1%N) empty_db db_users); [|reflexivity].
  apply reach_empty.
Defined.

Lemma table1_ids_distinct : NoDup (map c_id table1).
Proof.
  simpl. repeat (apply NoDup_cons; [simpl; intuition discriminate|]).
  apply NoDup_nil.
Defined.


Lemma retrieval_null_arguments_witness :
  match_chunks (Some [0 # 1]%Q) (Some (1 # 2)%Q) (Some 5) None None table1
  = Ok []
  /\ keyword_search_chunks (Some "beta") (Some 5) None None table1 = Ok [].
Proof.
  destruct (retrieval_null_arguments (Some [0 # 1]%Q) (Some (1 # 2)%Q)
              (Some 5) (Some 1%N) None (Some "beta") table1)
    as (Hm & _ & _ & Hk & _ & _).
  split.
  - rewrite Hm. reflexivity.
  - rewrite Hk. reflexivity.
Defined.

Lemma retrieval_rows_distinct_witness :
  match match_chunks (Some [0 # 1]%Q) (Some (1 # 2)%Q) (Some 5) (Some 1%N)
          None table1 with
  | Ok rows => NoDup (map m_id rows)
  | Err _ => False
  end
  /\ match keyword_search_chunks (Some "beta") (Some 5) (Some 1%N) None
             table1 with
     | Ok rows => NoDup (map k_id rows)
     | Err _ => False
     end.
Proof.
  destruct (retrieval_rows_distinct (Some [0 # 1]%Q) (Some (1 # 2)%Q)
              (Some 5) (Some 5) (Some 1%N) None (Some "beta") table1
              table1_ids_distinct) as [Hm Hk].
  split.
  - destruct (match_chunks (Some [0 # 1]%Q) (Some (1 # 2)%Q) (Some 5)
                (Some 1%N) None table1) as [rows|e] eqn:E.
    + apply Hm. reflexivity.
    + vm_compute in E. discriminate.
  - destruct (keyword_search_chunks (Some "beta") (Some 5) (Some 1%N) None
                table1) as [rows|e] eqn:E.
    + apply Hk. reflexivity.
    + vm_compute in E. discriminate.
Defined.

Lemma primary_keys_distinct_witness :
  NoDup (users db0) /\ NoDup (map d_id (documents db0))
  /\ NoDup (map c_id (chunks db0)).
Proof.
  apply (primary_keys_distinct db0). exact db0_reachable.
Defined.

Lemma owners_exist_and_user_deletion_cascades_witness :
  In (d_user_id doc_a) (users db0)
  /\ exists db', exec (DeleteUser 1%N) db0 = Ok db'
                 /\ has_user db' 1%N = false.
Proof.
  destruct owners_exist_and_user_deletion_cascades as [Hown Hdel].
  split.
  - apply (proj1 (Hown db0 db0_reachable) doc_a). left. reflexivity.
  - destruct (Hdel db0 1%N) as (db' & He & Hu & _).
    exists db'. split; assumption.
Defined.

Lemma delete_document_frame_witness :
  delete_document 99%N db0 = db0
  /\ chunks_of (delete_document 99%N db0) 10%N = chunks_of db0 10%N.
Proof.
  destruct (delete_document_frame db0 99%N) as (_ & _ & Hc & Hn).
  split.
  - apply Hn; reflexivity.
  - apply Hc. discriminate.
Defined.

Lemma search_vector_follows_content_witness :
  indexed (chunks db0)
  /\ (forall p_query n o f rows r,
        keyword_search_chunks p_query n o f (chunks db0) = Ok rows ->
        In r rows ->
        exists query,
          p_query = Some query
          /\ ts_match (to_tsvector (k_content r)) (websearch_to_tsquery query)
             = true).
Proof.
  apply (search_vector_follows_content db0). exact db0_reachable.
Defined.

Lemma backfill_search_vector_complete_witness :
  backfill_search_vector table1 = table1.
Proof.
  apply (proj2 (proj2 (proj2 (backfill_search_vector_complete table1)))).
  intros c Hc. simpl in Hc.
  destruct Hc as [<-|[<-|[<-|[<-|[]]]]]; reflexivity.
Defined.

Lemma profiles_migration_witness :
  match migrate_profiles [alice; tester; nobody] with
  | Ok profiles =>
      map up_user_id profiles = map u_id [alice; tester; nobody]
      /\ (forall p, In p profiles ->
            (up_is_admin p = true <->
             exists u, In u [alice; tester; nobody] /\ u_id u = up_user_id p
                       /\ u_email u = Some "test@user.com"))
      /\ (forall u, In u [alice; tester; nobody] ->
            create_user_profile u profiles = profiles)
  | Err _ =>
      (2 <= List.length (filter is_test_user [alice; tester; nobody]))%nat
  end.
Proof.
  apply (profiles_migration [alice; tester; nobody]).
  simpl. repeat (apply NoDup_cons; [simpl; intuition discriminate|]).
  apply NoDup_nil.
Defined.

Lemma global_settings_single_row_witness :
  insert_empty_row [empty_settings] = [empty_settings].
Proof.
  apply (proj2 (proj2 (global_settings_single_row None) [empty_settings])).
  discriminate.
Defined.

Lemma realtime_list_ids_witness :
  NoDup (map d_id (apply_change (DELETE 10%N) [doc_a; doc_b]))
  /\ NoDup (map d_id (apply_change (INSERT doc_b) [doc_a])).
Proof.
  split.
  - destruct (realtime_list_ids [doc_a; doc_b]) as (_ & _ & H).
    apply H.
    simpl. repeat (apply NoDup_cons; [simpl; intuition discriminate|]).
    apply NoDup_nil.
  - destruct (realtime_list_ids [doc_a]) as (_ & _ & H).
    apply H.
    + simpl. repeat (apply NoDup_cons; [simpl; intuition discriminate|]).
      apply NoDup_nil.
    + simpl. intuition discriminate.
Defined.

Lemma realtime_list_changes_witness :
  apply_change (DELETE (d_id doc_b)) (apply_change (INSERT doc_b) [doc_a])
  = [doc_a]
  /\ apply_change (UPDATE doc_b) [doc_a] = [doc_a].
Proof.
  destruct (realtime_list_changes [doc_a] doc_b) as (H1 & _ & H3 & _).
  split; [apply H1|apply H3]; simpl; intuition discriminate.
Defined.

Lemma thread_title_bounded_witness :
  thread_title "hello" = "hello"
  /\ exists head,
       thread_title long_message = (head ++ "...")%string
       /\ String.length head = 47%nat
       /\ String.prefix head long_message = true
       /\ String.length (thread_title long_message) = 50%nat.
Proof.
  split.
  - apply (proj1 (proj2 (thread_title_bounded "hello"))). simpl. lia.
  - apply (proj2 (proj2 (thread_title_bounded long_message))).
    vm_compute. lia.
Defined.

Lemma avatar_color_defined_witness :
  Z.abs (avatar_hash "alice@x.org" 0) < 2 ^ 53.
Proof.
  apply (proj2 (proj2 (avatar_color_defined "alice@x.org"))).
  simpl. lia.
Defined.

Lemma settings_form_round_trip_witness :
  build_update (form_of_settings settings0) = blanks_to_null settings0.
Proof.
  apply (settings_form_round_trip settings0).
  intros d H. simpl in H. injection H as <-. lia.
Defined.

Lemma file_size_shown_witness :
  formatFileSize 500 = (Z_toString 500 ++ " B")%string
  /\ (exists n,
        formatFileSize 2048 = (show_tenths n ++ " KB")%string
        /\ 2 * Z.abs (1024 * n - 10 * 2048) <= 1024
        /\ 10 <= n <= 10240)
  /\ (exists n,
        formatFileSize 5242880 = (show_tenths n ++ " MB")%string
        /\ 2 * Z.abs (1024 * 1024 * n - 10 * 5242880) <= 1024 * 1024
        /\ 10 <= n).
Proof.
  split; [|split].
  - apply (proj1 (file_size_shown 500 ltac:(lia))). lia.
  - apply (proj1 (proj2 (file_size_shown 2048 ltac:(lia)))). lia.
  - apply (proj2 (proj2 (file_size_shown 5242880 ltac:(lia)))). lia.
Defined.

Lemma validateFile_ignores_case_witness :
  validateFile {| name := "A.TXT"; size := 5; content := "hello" |}
  = validateFile file_a.
Proof.
  apply validateFile_ignores_case; reflexivity.
Defined.

Lemma handleUpload_requests_witness :
  requests (snd (handleUpload sample_fingerprint [file_a] ui0 world0))
  = requests world0 ++ map PostUpload [file_a].
Proof.
  destruct (handleUpload_requests sample_fingerprint [file_a] ui0 world0)
    as (k & _ & Hreq & Hok & _).
  assert (E : error (fst (handleUpload sample_fingerprint [file_a] ui0 world0))
              = None) by (vm_compute; reflexivity).
  destruct (Hok E) as [Hk _]. subst k. exact Hreq.
Defined.

Lemma no_session_no_request_witness :
  handleUpload sample_fingerprint [file_a] ui0 signed_out
  = ({| error := Some "Not authenticated"; info := None;
        uploading := false; completions := completions ui0 |}, signed_out)
  /\ handleSave (form_of_settings settings0) signed_out
     = ({| saving := false; save_error := Some "Not authenticated";
           success := false |}, signed_out).
Proof.
  destruct (no_session_no_request sample_fingerprint signed_out eq_refl)
    as [Hu Hs].
  split.
  - apply Hu; [discriminate|reflexivity].
  - apply Hs.
Defined.
